(** * Post-double-selection LASSO and X-Learner of [analysis_ml_methods.py]

    A shallow embedding of the two estimation stages of the script
    (STEP 2, lines 113-237, and STEP 3, lines 239-425), of the parts of
    STEP 1 that prepare their columns (lines 51-68 and 97-107), and the
    properties of them that the specification states.

    Numbers.  numpy's float64 values are modelled by exact rationals [Q];
    a missing value (NaN) of a data-frame cell is [None].  Rounding is not
    modelled; where a test of the script can turn on it (the test
    [std() == 0] of line 149) the test is also given as a parameter
    ([control_cols_by]).  Square roots do not exist in [Q]: every quantity that needs
    one (standard errors, [np.std], the scaler) is computed by the library
    and is a parameter here.

    Libraries.  scikit-learn, statsmodels and the numpy random generator
    are not part of the source; the record [Library] holds the calls the
    script makes.  Every theorem holds for every library; where a
    theorem needs a contract of a library, the contract is a premise. *)

From Stdlib Require Import String Ascii QArith Qabs Qminmax Lia Lqa ZArith Bool Arith.
From Stdlib Require Import DecimalString DecimalNat SetoidList.
From Stdlib Require Import List Sorted Permutation.
Import ListNotations.

Local Open Scope string_scope.
Local Open Scope Q_scope.

Set Warnings "-abstract-large-number".

(** ** numpy helpers *)

Definition Qlt_bool (x y : Q) : bool := negb (Qle_bool y x).

Definition Qsum (l : list Q) : Q := fold_right Qplus 0 l.

Definition Qlen {A} (l : list A) : Q := inject_Z (Z.of_nat (length l)).

(** Elementwise binary operation on two arrays of one shape. *)
Fixpoint zip_with {A B C} (f : A -> B -> C) (a : list A) (b : list B) : list C :=
  match a, b with
  | x :: a', y :: b' => f x y :: zip_with f a' b'
  | _, _ => []
  end.

(** [a[mask]]: boolean-mask indexing. *)
Fixpoint compress {A} (mask : list bool) (a : list A) : list A :=
  match mask, a with
  | m :: mask', x :: a' => if m then x :: compress mask' a' else compress mask' a'
  | _, _ => []
  end.

(** [np.where(p(a))[0]]: the positions at which [p] holds, ascending. *)
Fixpoint where_from (i : nat) (p : Q -> bool) (a : list Q) : list nat :=
  match a with
  | [] => []
  | c :: a' => if p c then i :: where_from (S i) p a' else where_from (S i) p a'
  end.

Definition np_where (p : Q -> bool) (a : list Q) : list nat := where_from 0 p a.

(** [np.unique]: the sorted distinct values. *)
Fixpoint insert_uniq (x : nat) (l : list nat) : list nat :=
  match l with
  | [] => [x]
  | y :: l' =>
      if (x <? y)%nat then x :: l
      else if (x =? y)%nat then l
      else y :: insert_uniq x l'
  end.

Definition np_unique (l : list nat) : list nat := fold_right insert_uniq [] l.

(** [np.union1d(a, b)] is [unique(concatenate((a, b)))]. *)
Definition np_union1d (a b : list nat) : list nat := np_unique (a ++ b).

(** [np.mean]; NaN ([None]) on an empty array. *)
Definition np_mean (a : list Q) : option Q :=
  match a with
  | [] => None
  | _ => Some (Qsum a / Qlen a)
  end.

(** ** Data frames *)

Inductive dtype : Set :=
  | int8 | int16 | int32 | int64 | float32 | float64 | bool_ | object_ | category.

Definition dtype_eqb (a b : dtype) : bool :=
  match a, b with
  | int8, int8 | int16, int16 | int32, int32 | int64, int64
  | float32, float32 | float64, float64 | bool_, bool_
  | object_, object_ | category, category => true
  | _, _ => false
  end.

(** [np.dtype(s)] for the strings the script compares with; ['int'] and
    ['float'] are the platform's 64-bit types. *)
Definition np_dtype (s : string) : option dtype :=
  if s =? "int64" then Some int64
  else if s =? "float64" then Some float64
  else if s =? "int32" then Some int32
  else if s =? "float32" then Some float32
  else if s =? "int" then Some int64
  else if s =? "float" then Some float64
  else None.

(** [d in l] for a dtype [d] and a list of dtype names. *)
Definition dtype_in (d : dtype) (l : list string) : bool :=
  existsb (fun s => match np_dtype s with
                    | Some d' => dtype_eqb d d'
                    | None => false
                    end) l.

(** [pd.api.types.is_numeric_dtype]. *)
Definition is_numeric_dtype (d : dtype) : bool :=
  match d with
  | object_ | category => false
  | _ => true
  end.

(** A cell: a number, or [None] for a missing value.  A cell of a column
    that is not numeric is kept as a numeric code. *)
Definition cell : Type := option Q.

(** A frame is its column labels with their dtypes and its rows, in
    order.  A row shorter than the header reads as missing values, so
    every frame is rectangular. *)
Record frame : Type := Frame {
  header : list (string * dtype);
  body : list (list cell)
}.

Definition columns (df : frame) : list string := map fst (header df).

Definition len (df : frame) : nat := length (body df).

Fixpoint index_of (c : string) (names : list string) : option nat :=
  match names with
  | [] => None
  | x :: names' =>
      if c =? x then Some 0%nat
      else match index_of c names' with
           | Some j => Some (S j)
           | None => None
           end
  end.

Definition cells_at (df : frame) (j : nat) : list cell :=
  map (fun row => nth j row None) (body df).

(** A column: its dtype and its cells. *)
Record series : Type := Series { s_dtype : dtype; s_cells : list cell }.

(** [df[c]] *)
Definition get (df : frame) (c : string) : option series :=
  match index_of c (columns df) with
  | Some j => Some (Series (snd (nth j (header df) (c, object_))) (cells_at df j))
  | None => None
  end.

Definition mem (c : string) (l : list string) : bool := existsb (String.eqb c) l.

Definition isna (x : cell) : bool :=
  match x with None => true | Some _ => false end.

(** [s.isna().any()] *)
Definition isna_any (s : series) : bool := existsb isna (s_cells s).

(** [s.notna().all()] *)
Definition notna_all (s : series) : bool := forallb (fun x => negb (isna x)) (s_cells s).

(** The values present in a column ([skipna=True]). *)
Fixpoint present (cells : list cell) : list Q :=
  match cells with
  | [] => []
  | Some x :: cells' => x :: present cells'
  | None :: cells' => present cells'
  end.

(** The sample variance (ddof = 1) of pandas' [nanvar]: the mean, the
    squared deviations from it, their sum over [count - 1]; NaN when
    [count <= 1]. *)
Definition nanvar (xs : list Q) : option Q :=
  if (length xs <=? 1)%nat then None
  else
    let avg := Qsum xs / Qlen xs in
    Some (Qsum (map (fun x => (avg - x) * (avg - x)) xs) / (Qlen xs - 1)).

(** [s.std() == 0], in exact arithmetic.  [std] is the square root of
    [nanvar], which is zero exactly when the variance is; a NaN is not
    equal to zero.  pandas computes in float64, where a rounded mean can
    leave a tiny nonzero deviation on a constant column. *)
Definition std_eq_0 (s : series) : bool :=
  match nanvar (present (s_cells s)) with
  | Some v => Qeq_bool v 0
  | None => false
  end.

(** ** Candidate controls (lines 135-151) *)

Definition exclude_cols : list string :=
  ["ln_wage"; "agri_post"; "idind"; "psu"; "id"; "inn"; "wage_month";
   "wage"; "industry"; "region"; "inwgt"; "occupation"; "occup"; "occup08";
   "h5"; "h6"; "j1"; "j10"; "j4_1"; "j8"; "j11"; "educ"; "marst";
   "int_y"; "interview_month"; "h7_1"; "h7_2"].

(** The dtypes of line 145. *)
Definition numeric_names : list string :=
  ["int64"; "float64"; "int32"; "float32"; "int"; "float"].

(** One pass of the loop body for column [c]: [true] when [c] is
    appended, [false] when a [continue] is taken. *)
Definition is_control (df_clean : frame) (c : string) : bool :=
  if mem c exclude_cols then false
  else match get df_clean c with
       | None => false
       | Some s =>
           if negb (dtype_in (s_dtype s) numeric_names) then false
           else if isna_any s then false
           else if std_eq_0 s then false
           else true
       end.

Definition control_cols (df_clean : frame) : list string :=
  filter (is_control df_clean) (columns df_clean).

(** The same loop with the test of line 149 left to pandas:
    [std_is_0 s] stands for the outcome of [df_clean[c].std() == 0] as
    pandas computes it, in float64.  On a column of eight 7.0 it is
    true, as [std_eq_0] is; on a column whose mean is rounded (three
    0.1) pandas' standard deviation is a tiny positive number and the
    column is kept, where the exact [std_eq_0] holds. *)
Definition is_control_by (std_is_0 : series -> bool) (df_clean : frame) (c : string)
  : bool :=
  if mem c exclude_cols then false
  else match get df_clean c with
       | None => false
       | Some s =>
           if negb (dtype_in (s_dtype s) numeric_names) then false
           else if isna_any s then false
           else if std_is_0 s then false
           else true
       end.

Definition control_cols_by (std_is_0 : series -> bool) (df_clean : frame)
  : list string :=
  filter (is_control_by std_is_0 df_clean) (columns df_clean).

(** ** Selection (lines 167, 178, 185) *)

(** [np.where(np.abs(coef) > 1e-6)[0]] *)
Definition selected (coef : list Q) : list nat :=
  np_where (fun c => Qlt_bool 1e-6 (Qabs c)) coef.

(** ** The final design matrix (lines 193-199) *)

(** A 2-D array is the list of its rows. *)
Definition matrix : Type := list (list Q).

Definition column (X : matrix) (j : nat) : list Q := map (fun row => nth j row 0) X.

Definition n_columns (X : matrix) : nat :=
  match X with [] => 0%nat | row :: _ => length row end.

(** [np.column_stack([D, X_selected])] *)
Definition column_stack (D : list Q) (X_selected : matrix) : matrix :=
  zip_with (fun d row => d :: row) D X_selected.

(** [D.reshape(-1, 1)] *)
Definition reshape_column (D : list Q) : matrix := map (fun d => [d]) D.

(** [np.ptp(x) == 0]: largest equals smallest, that is, all entries equal. *)
Definition ptp_eq_0 (x : list Q) : bool :=
  match x with
  | [] => true
  | a :: x' => forallb (Qeq_bool a) x'
  end.

(** statsmodels' test for a column that already is a constant:
    [np.ptp(x, axis=0) == 0] and [np.all(x != 0.0, axis=0)]. *)
Definition is_nonzero_const (x : list Q) : bool :=
  ptp_eq_0 x && forallb (fun v => negb (Qeq_bool v 0)) x.

Definition has_nonzero_const (x : matrix) : bool :=
  existsb (fun j => is_nonzero_const (column x j)) (seq 0 (n_columns x)).

(** ** Exceptions and the log of fits *)

(** An exception is named by its class. *)
Definition exn : Type := string.

Definition KeyError : exn := "KeyError".
Definition IndexError : exn := "IndexError".
Definition ValueError : exn := "ValueError".
(** The two fatal errors of the specification's taxonomy. *)
Definition InputError : exn := "InputError".

(** A call of an estimator's [fit], with the number of rows passed. *)
Inductive call : Type := Fit (estimator : string) (n_samples : nat).

(** A run of a part of the script: the fits called so far, in order, and
    either the exception that ended the run or its value. *)
Definition Run (A : Type) : Type := (list call * (exn + A))%type.

Definition ret {A} (a : A) : Run A := ([], inr a).

Definition raise {A} (e : exn) : Run A := ([], inl e).

Definition lift {A} (r : exn + A) : Run A := ([], r).

Definition bind {A B} (m : Run A) (f : A -> Run B) : Run B :=
  match m with
  | (t, inl e) => (t, inl e)
  | (t, inr a) => ((t ++ fst (f a))%list, snd (f a))
  end.

(** [est.fit(...)] on [n] rows, with the library's outcome [r]. *)
Definition fit {A} (estimator : string) (n : nat) (r : exn + A) : Run A :=
  ([Fit estimator n], r).

Notation "x <- m ;; k" := (bind m (fun x => k))
  (at level 61, m at next level, right associativity).

Definition trace {A} (r : Run A) : list call := fst r.
Definition outcome {A} (r : Run A) : exn + A := snd r.
Definition raises {A} (r : Run A) (e : exn) : Prop := outcome r = inl e.
Definition returns {A} (r : Run A) (a : A) : Prop := outcome r = inr a.

(** The exceptions of Python and of the libraries' input validation. *)
Definition builtin (e : exn) : Prop :=
  e = KeyError \/ e = IndexError \/ e = ValueError.

(** A step that calls no estimator and raises built-in exceptions only. *)
Definition silent {A} (m : Run A) : Prop :=
  trace m = [] /\ forall e, raises m e -> builtin e.

(** [e] is not raised while no fit has been called. *)
Definition never_first (e : exn) {A} (r : Run A) : Prop :=
  ~ (raises r e /\ trace r = []).

Fixpoint traverse {A B} (f : A -> exn + B) (l : list A) : exn + list B :=
  match l with
  | [] => inr []
  | x :: l' =>
      match f x with
      | inl e => inl e
      | inr y =>
          match traverse f l' with
          | inl e => inl e
          | inr ys => inr (y :: ys)
          end
      end
  end.

Definition item {A} (l : list A) (i : nat) : exn + A :=
  match nth_error l i with
  | Some x => inr x
  | None => inl IndexError
  end.

(** An array handed to an estimator must hold numbers only: scikit-learn
    raises [ValueError] on a NaN.  The script passes key variables, which
    have no missing value after line 104, and columns it has checked. *)
Definition check_array (cells : list cell) : exn + list Q :=
  traverse (fun x => match x with
                     | Some q => inr q
                     | None => inl ValueError
                     end) cells.

(** [df[c].values] of a column of numbers. *)
Definition values (df : frame) (c : string) : Run (list Q) :=
  match get df c with
  | None => raise KeyError
  | Some s => lift (check_array (s_cells s))
  end.

(** [df[names].values] as a 2-D array of numbers. *)
Definition values2d (df : frame) (names : list string) : Run matrix :=
  js <- lift (traverse (fun c => match index_of c (columns df) with
                                  | Some j => inr j
                                  | None => inl KeyError
                                  end) names) ;;
  lift (traverse (fun row => check_array (map (fun j => nth j row None) js)) (body df)).

(** [sm.add_constant(x)] with its defaults [prepend=True],
    [has_constant='skip']: a column of ones is put first, unless some
    column of [x] is a nonzero constant, in which case [x] is returned
    as it is.  [np.ptp] raises on an array without rows. *)
Definition add_constant (x : matrix) : exn + matrix :=
  match x with
  | [] => inl ValueError
  | _ => if has_nonzero_const x then inr x
         else inr (map (fun row => 1 :: row) x)
  end.

(** ** The libraries *)

Inductive cov_type : Type :=
  | HC1
  | cluster (groups : list cell).

(** What the script reads of a fitted statsmodels regression. *)
Record ols_results : Type := OlsResults {
  params : list Q;
  bse : list Q;
  pvalues : list Q
}.

Record Library : Type := {
  (** the state of numpy's global generator *)
  rng : Type;
  np_random_seed : Z -> rng;
  (** [np.random.choice(a, size, replace=False)] and the state it leaves *)
  np_random_choice : rng -> nat -> nat -> list nat * rng;
  (** [StandardScaler().fit_transform(X)] *)
  StandardScaler_fit_transform : matrix -> exn + matrix;
  (** [LassoCV(cv=5, max_iter=10000).fit(X, y).coef_] *)
  LassoCV_fit : matrix -> list Q -> exn + list Q;
  (** [LogisticRegressionCV(cv=5, penalty='l1', solver='saga',
      max_iter=10000).fit(X, y).coef_[0]]; no [random_state] is given, so
      the solver draws from the global generator *)
  LogisticRegressionCV_fit : rng -> matrix -> list Q -> exn + list Q;
  (** [sm.OLS(endog, exog).fit(cov_type=...)] *)
  OLS_fit : cov_type -> list Q -> matrix -> exn + ols_results;
  (** [RandomForestRegressor(n_estimators, max_depth,
      random_state).fit(X, y)] *)
  forest : Type;
  RandomForestRegressor_fit : nat -> nat -> Z -> matrix -> list Q -> exn + forest;
  (** the prediction at one row of covariates *)
  predict : forest -> list Q -> Q;
  feature_importances_ : forest -> list Q;
  (** [RandomForestClassifier(n_estimators, max_depth,
      random_state).fit(X, y)] *)
  classifier : Type;
  RandomForestClassifier_fit : nat -> nat -> Z -> matrix -> list Q -> exn + classifier;
  (** the class probabilities at one row, one per class seen in training *)
  predict_proba : classifier -> list Q -> list Q;
  (** statistics that need a square root or a sort *)
  np_std : list Q -> option Q;
  np_median : list Q -> option Q;
  np_percentile : list Q -> Q -> option Q;
  pd_std : list Q -> option Q
}.

(** ** STEP 2: post-double-selection LASSO (lines 131-236) *)

(** The row written to [lasso_results.csv]. *)
Record lasso_results : Type := LassoResults {
  method : string;
  coefficient : Q;
  std_error : Q;
  p_value : Q;
  ci_lower : Q;
  ci_upper : Q;
  n_controls_selected : nat;
  controls_selected : string;
  n_obs : nat
}.

(** [[control_cols[i] for i in selected_union]] *)
Definition names_at (control_cols : list string) (idx : list nat) : exn + list string :=
  traverse (item control_cols) idx.

(** Lines 193-197. *)
Definition X_final_of (df_clean : frame) (D : list Q) (selected_names : list string)
  : Run matrix :=
  if (0 <? length selected_names)%nat then
    X_selected <- values2d df_clean selected_names ;;
    ret (column_stack D X_selected)
  else ret (reshape_column D).

(** Lines 204-208. *)
Definition cov_type_of (df_clean : frame) : cov_type :=
  if mem "region" (columns df_clean) then
    match get df_clean "region" with
    | Some s => cluster (s_cells s)
    | None => HC1
    end
  else HC1.

(** [df.iloc[idx]], rows by position. *)
Definition iloc (df : frame) (idx : list nat) : exn + frame :=
  match traverse (item (body df)) idx with
  | inl e => inl e
  | inr rows => inr (Frame (header df) rows)
  end.

(** The three tests of lines 272-274 and 279-281 on a column label. *)
Definition usable (df : frame) (v : string) : bool :=
  match get df v with
  | Some s => is_numeric_dtype (s_dtype s) && notna_all s
  | None => false
  end.

(** [list(dict.fromkeys(l))]: the first occurrence of each label. *)
Fixpoint dedup (l : list string) : list string :=
  match l with
  | [] => []
  | x :: l' => x :: filter (fun y => negb (y =? x)) (dedup l')
  end.

(** Lines 270-285. *)
Definition hetero_vars_of (df_cf : frame) : list string :=
  let base := filter (usable df_cf) ["age"; "female"; "post"; "age_sq"] in
  let educ := filter (fun c => prefix "educ_" c && usable df_cf c) (columns df_cf) in
  firstn 10 (dedup (base ++ educ)).

(** [a + b] for two 1-D arrays whose lengths are not known to agree:
    numpy stretches an array of length one and raises on any other
    mismatch. *)
Definition np_add (a b : list Q) : exn + list Q :=
  if (length a =? length b)%nat then inr (zip_with Qplus a b)
  else match a, b with
       | [x], _ => inr (map (fun y => x + y) b)
       | _, [y] => inr (map (fun x => x + y) a)
       | _, _ => inl ValueError
       end.

(** [np.min]; it raises on an empty array. *)
Definition np_min (a : list Q) : exn + Q :=
  match a with
  | [] => inl ValueError
  | x :: a' => inr (fold_left (fun m y => if Qlt_bool y m then y else m) a' x)
  end.

(** The row written to [causal_forest_results.csv]. *)
Record cf_row : Type := CfRow {
  cf_method : string;
  mean_tau : option Q;
  std_tau : option Q;
  median_tau : option Q;
  p10_tau : option Q;
  p25_tau : option Q;
  p75_tau : option Q;
  p90_tau : option Q;
  cf_n_obs : nat
}.

(** One printed line of "TREATMENT EFFECTS BY SUBGROUP". *)
Record subgroup : Type := Subgroup {
  sg_label : string;
  sg_mean : option Q;
  sg_std : option Q;
  sg_n : nat
}.

Definition count_true (mask : list bool) : nat := length (filter (fun b => b) mask).

(** [df[c] <test>] as a boolean mask; a comparison with NaN is false. *)
Definition mask_of (df : frame) (c : string) (p : Q -> bool) : Run (list bool) :=
  match get df c with
  | None => raise KeyError
  | Some s => ret (map (fun x => match x with
                                 | Some q => p q
                                 | None => false
                                 end) (s_cells s))
  end.

(** Everything STEP 2 has computed when it ends, under the names the
    script gives them. *)
Module Lasso.
Record state : Type := State {
  Y : list Q;
  D : list Q;
  X : matrix;
  X_scaled : matrix;
  coef_y : list Q;          (* lasso_y.coef_ *)
  selected_y : list nat;
  coef_d : list Q;          (* lasso_d.coef_[0] *)
  selected_d : list nat;
  selected_union : list nat;
  selected_names : list string;
  X_final : matrix;
  cov : cov_type;
  results : ols_results;
  beta_lasso : Q;
  se_lasso : Q;
  pval_lasso : Q;
  report : lasso_results    (* the row of lasso_results *)
}.
End Lasso.

Section Script.

Variable lib : Library.

Definition double_selection (g : rng lib) (df_clean : frame) : Run Lasso.state :=
  Y <- values df_clean "ln_wage" ;;
  D <- values df_clean "agri_post" ;;
  let control_cols := control_cols df_clean in
  X <- values2d df_clean control_cols ;;
  X_scaled <- fit "scaler" (length X) (StandardScaler_fit_transform lib X) ;;
  coef_y <- fit "lasso_y" (length X_scaled) (LassoCV_fit lib X_scaled Y) ;;
  let selected_y := selected coef_y in
  coef_d <- fit "lasso_d" (length X_scaled) (LogisticRegressionCV_fit lib g X_scaled D) ;;
  let selected_d := selected coef_d in
  let selected_union := np_union1d selected_y selected_d in
  selected_names <- lift (names_at control_cols selected_union) ;;
  X_final <- X_final_of df_clean D selected_names ;;
  X_final <- lift (add_constant X_final) ;;
  let cov := cov_type_of df_clean in
  results <- fit "model" (length Y) (OLS_fit lib cov Y X_final) ;;
  beta_lasso <- lift (item (params results) 1) ;;
  se_lasso <- lift (item (bse results) 1) ;;
  pval_lasso <- lift (item (pvalues results) 1) ;;
  ret {| Lasso.Y := Y; Lasso.D := D; Lasso.X := X; Lasso.X_scaled := X_scaled;
         Lasso.coef_y := coef_y; Lasso.selected_y := selected_y;
         Lasso.coef_d := coef_d; Lasso.selected_d := selected_d;
         Lasso.selected_union := selected_union;
         Lasso.selected_names := selected_names;
         Lasso.X_final := X_final; Lasso.cov := cov; Lasso.results := results;
         Lasso.beta_lasso := beta_lasso; Lasso.se_lasso := se_lasso;
         Lasso.pval_lasso := pval_lasso;
         Lasso.report :=
           {| method := "Post-Double-Selection LASSO";
              coefficient := beta_lasso;
              std_error := se_lasso;
              p_value := pval_lasso;
              ci_lower := beta_lasso - 1.96 * se_lasso;
              ci_upper := beta_lasso + 1.96 * se_lasso;
              n_controls_selected := length selected_union;
              controls_selected := String.concat ", " (firstn 20 selected_names);
              n_obs := length Y |} |}.

(** ** STEP 3: X-Learner (lines 257-425) *)

(** Lines 383-409: for each group with at least one row, the mean and
    standard deviation of [tau_hat] over its rows. *)
Fixpoint summaries (df_cf : frame) (tau_hat : list Q) (c : string)
    (groups : list (string * (Q -> bool))) : Run (list subgroup) :=
  match groups with
  | [] => ret []
  | (label, p) :: groups' =>
      mask <- mask_of df_cf c p ;;
      rest <- summaries df_cf tau_hat c groups' ;;
      if (0 <? count_true mask)%nat
      then ret ({| sg_label := label;
                   sg_mean := np_mean (compress mask tau_hat);
                   sg_std := pd_std lib (compress mask tau_hat);
                   sg_n := count_true mask |} :: rest)
      else ret rest
  end.

(** Everything the stage has computed when it ends. *)
Record x_learner_state : Type := XLearnerState {
  sample_idx : list nat;
  df_cf : frame;
  Y_cf : list Q;
  T_cf : list Q;
  hetero_vars : list string;
  X_cf : matrix;
  mask_0 : list bool;
  mask_1 : list bool;
  rf_0 : forest lib;
  rf_1 : forest lib;
  mu_0 : list Q;
  mu_1 : list Q;
  D_0 : list Q;
  D_1 : list Q;
  tau_0_model : forest lib;
  tau_1_model : forest lib;
  ps_model : classifier lib;
  e_x : list Q;
  tau_0_pred : list Q;
  tau_1_pred : list Q;
  tau_hat : list Q;
  importance_avg : list Q;
  subgroups : list subgroup;
  cf_results : cf_row
}.

(** Lines 257-261: the subsample.  The seed is set first, so the state
    [g] the global generator is in when the stage starts is not read. *)
Definition subsample (g : rng lib) (df_clean : frame) : Run (list nat * frame) :=
  let g := np_random_seed lib 42 in
  let n_sample := Nat.min 30000 (len df_clean) in
  let sample_idx := fst (np_random_choice lib g (len df_clean) n_sample) in
  df_cf <- lift (iloc df_clean sample_idx) ;;
  ret (sample_idx, df_cf).

(** Lines 265-425, on the subsample. *)
Definition x_learner_on (sample_idx : list nat) (df_cf : frame) : Run x_learner_state :=
  Y_cf <- values df_cf "ln_wage" ;;
  T_cf <- values df_cf "agri" ;;
  let hetero_vars := hetero_vars_of df_cf in
  X_cf <- values2d df_cf hetero_vars ;;
  let mask_0 := map (fun t => Qeq_bool t 0) T_cf in
  rf_0 <- fit "rf_0" (length (compress mask_0 X_cf))
            (RandomForestRegressor_fit lib 100 10 42
               (compress mask_0 X_cf) (compress mask_0 Y_cf)) ;;
  let mask_1 := map (fun t => Qeq_bool t 1) T_cf in
  rf_1 <- fit "rf_1" (length (compress mask_1 X_cf))
            (RandomForestRegressor_fit lib 100 10 42
               (compress mask_1 X_cf) (compress mask_1 Y_cf)) ;;
  let mu_0 := map (predict lib rf_0) X_cf in
  let mu_1 := map (predict lib rf_1) X_cf in
  let D_0 := zip_with Qminus (compress mask_0 mu_1) (compress mask_0 Y_cf) in
  let D_1 := zip_with Qminus (compress mask_1 Y_cf) (compress mask_1 mu_0) in
  tau_0_model <- fit "tau_0_model" (length (compress mask_0 X_cf))
                   (RandomForestRegressor_fit lib 100 8 42 (compress mask_0 X_cf) D_0) ;;
  tau_1_model <- fit "tau_1_model" (length (compress mask_1 X_cf))
                   (RandomForestRegressor_fit lib 100 8 42 (compress mask_1 X_cf) D_1) ;;
  ps_model <- fit "ps_model" (length X_cf)
                (RandomForestClassifier_fit lib 100 8 42 X_cf T_cf) ;;
  e_x <- lift (traverse (fun x => item (predict_proba lib ps_model x) 1) X_cf) ;;
  let tau_0_pred := map (predict lib tau_0_model) X_cf in
  let tau_1_pred := map (predict lib tau_1_model) X_cf in
  let tau_hat :=
    zip_with Qplus (zip_with Qmult e_x tau_0_pred)
                   (zip_with Qmult (map (fun e => 1 - e) e_x) tau_1_pred) in
  _ <- lift (np_min tau_hat) ;;
  let importance_0 := feature_importances_ lib tau_0_model in
  let importance_1 := feature_importances_ lib tau_1_model in
  importance_sum <- lift (np_add importance_0 importance_1) ;;
  let importance_avg := map (fun v => v / 2) importance_sum in
  _ <- (if (length hetero_vars =? length importance_avg)%nat
        then ret tt else raise ValueError) ;;
  by_age <- summaries df_cf tau_hat "age"
              [("Age 18-30", fun a => Qle_bool 18 a && Qlt_bool a 30);
               ("Age 30-45", fun a => Qle_bool 30 a && Qlt_bool a 45);
               ("Age 45-55", fun a => Qle_bool 45 a && Qlt_bool a 55);
               ("Age 55-65", fun a => Qle_bool 55 a && Qlt_bool a 65)] ;;
  by_gender <- summaries df_cf tau_hat "female"
                 [("Male", fun v => Qeq_bool v 0); ("Female", fun v => Qeq_bool v 1)] ;;
  by_period <- summaries df_cf tau_hat "post"
                 [("Pre-2014", fun v => Qeq_bool v 0); ("Post-2014", fun v => Qeq_bool v 1)] ;;
  ret {| sample_idx := sample_idx; df_cf := df_cf; Y_cf := Y_cf; T_cf := T_cf;
         hetero_vars := hetero_vars; X_cf := X_cf;
         mask_0 := mask_0; mask_1 := mask_1; rf_0 := rf_0; rf_1 := rf_1;
         mu_0 := mu_0; mu_1 := mu_1; D_0 := D_0; D_1 := D_1;
         tau_0_model := tau_0_model; tau_1_model := tau_1_model;
         ps_model := ps_model; e_x := e_x;
         tau_0_pred := tau_0_pred; tau_1_pred := tau_1_pred;
         tau_hat := tau_hat; importance_avg := importance_avg;
         subgroups := (by_age ++ by_gender ++ by_period)%list;
         cf_results :=
           {| cf_method := "X-Learner Causal Forest";
              mean_tau := np_mean tau_hat;
              std_tau := np_std lib tau_hat;
              median_tau := np_median lib tau_hat;
              p10_tau := np_percentile lib tau_hat 10;
              p25_tau := np_percentile lib tau_hat 25;
              p75_tau := np_percentile lib tau_hat 75;
              p90_tau := np_percentile lib tau_hat 90;
              cf_n_obs := length tau_hat |} |}.

Definition x_learner (g : rng lib) (df_clean : frame) : Run x_learner_state :=
  s <- subsample g df_clean ;;
  x_learner_on (fst s) (snd s).

End Script.

Arguments sample_idx {lib} _.
Arguments df_cf {lib} _.
Arguments Y_cf {lib} _.
Arguments T_cf {lib} _.
Arguments hetero_vars {lib} _.
Arguments X_cf {lib} _.
Arguments mask_0 {lib} _.
Arguments mask_1 {lib} _.
Arguments rf_0 {lib} _.
Arguments rf_1 {lib} _.
Arguments mu_0 {lib} _.
Arguments mu_1 {lib} _.
Arguments D_0 {lib} _.
Arguments D_1 {lib} _.
Arguments tau_0_model {lib} _.
Arguments tau_1_model {lib} _.
Arguments ps_model {lib} _.
Arguments e_x {lib} _.
Arguments tau_0_pred {lib} _.
Arguments tau_1_pred {lib} _.
Arguments tau_hat {lib} _.
Arguments importance_avg {lib} _.
Arguments subgroups {lib} _.
Arguments cf_results {lib} _.

(** ** STEP 2, then STEP 3 (lines 113-425)

    The script runs from top to bottom without any [try]: STEP 3 starts
    only when STEP 2 has ended normally, and an exception of STEP 2 ends
    the script.  STEP 3 seeds the generator itself (line 258), so the
    state STEP 2 leaves it in is not read. *)
Definition steps_2_3 (lib : Library) (g : rng lib) (df_clean : frame)
  : Run (Lasso.state * x_learner_state lib) :=
  st2 <- double_selection lib g df_clean ;;
  st3 <- x_learner lib g df_clean ;;
  ret (st2, st3).

(** ** STEP 1: assigning a column *)

(** A row as it reads under a header of [n] labels. *)
Definition pad (n : nat) (row : list cell) : list cell :=
  firstn n (row ++ repeat None n)%list.

Fixpoint replace_at {A} (j : nat) (x : A) (l : list A) : list A :=
  match l, j with
  | [], _ => []
  | _ :: l', O => x :: l'
  | y :: l', S j' => y :: replace_at j' x l'
  end.

(** [df[c] = cells], for a frame with distinct labels: the column [c] is
    replaced where it stands when the frame has it and is put last when
    not; pandas raises when [cells] does not have one value per row. *)
Definition setitem (df : frame) (c : string) (dt : dtype) (cells : list cell)
  : exn + frame :=
  if (length cells =? len df)%nat then
    let n := length (header df) in
    match index_of c (columns df) with
    | Some j =>
        inr (Frame (replace_at j (c, dt) (header df))
               (zip_with (fun row x => replace_at j x (pad n row)) (body df) cells))
    | None =>
        inr (Frame (header df ++ [(c, dt)])%list
               (zip_with (fun row x => (pad n row ++ [x])%list) (body df) cells))
    end
  else inl ValueError.

(** [(s == v).astype(int)]; a missing value is equal to nothing. *)
Definition eq_astype_int (s : series) (v : Q) : list cell :=
  map (fun x => match x with
                | Some y => if Qeq_bool y v then Some 1 else Some 0
                | None => Some 0
                end) (s_cells s).

(** ** STEP 1: analysis period and treatment (lines 51-68) *)

Definition TypeError : exn := "TypeError".

(** [(2010 <= y) & (y <= 2019)]; a comparison with NaN is false. *)
Definition in_period (x : cell) : bool :=
  match x with
  | Some y => Qle_bool 2010 y && Qle_bool y 2019
  | None => false
  end.

(** Line 51: [df[(df['year'] >= 2010) & (df['year'] <= 2019)]]. *)
Definition filter_period (df : frame) : exn + frame :=
  match index_of "year" (columns df) with
  | None => inl KeyError
  | Some j =>
      inr (Frame (header df) (filter (fun row => in_period (nth j row None)) (body df)))
  end.

(** Lines 56-62: without a column [agri], the indicator of industry 8;
    the script raises [ValueError] when there is no [industry] either. *)
Definition agri_indicator (df : frame) : exn + frame :=
  if mem "agri" (columns df) then inr df
  else if mem "industry" (columns df) then
    match get df "industry" with
    | None => inl KeyError
    | Some s => setitem df "agri" int64 (eq_astype_int s 8)
    end
  else inl ValueError.

(** [(s >= v).astype(int)]; a comparison with NaN is false. *)
Definition ge_astype_int (s : series) (v : Q) : list cell :=
  map (fun x => match x with
                | Some y => if Qle_bool v y then Some 1 else Some 0
                | None => Some 0
                end) (s_cells s).

(** The dtype of [a * b] for [b] of dtype [int64]: numpy's result type;
    pandas refuses to multiply a categorical. *)
Definition mul_int64_dtype (a : dtype) : exn + dtype :=
  match a with
  | int8 | int16 | int32 | int64 | bool_ => inr int64
  | float32 | float64 => inr float64
  | object_ => inr object_
  | category => inl TypeError
  end.

(** Elementwise product; NaN where a factor is NaN. *)
Definition mul_cells (a b : list cell) : list cell :=
  zip_with (fun x y => match x, y with
                       | Some u, Some v => Some (u * v)
                       | _, _ => None
                       end) a b.

(** Line 65, then line 68. *)
Definition treatment_columns (df : frame) : exn + frame :=
  match get df "year" with
  | None => inl KeyError
  | Some sy =>
      match setitem df "post" int64 (ge_astype_int sy 2014) with
      | inl e => inl e
      | inr df1 =>
          match get df1 "agri", get df1 "post" with
          | Some sa, Some sp =>
              match mul_int64_dtype (s_dtype sa) with
              | inl e => inl e
              | inr dt => setitem df1 "agri_post" dt (mul_cells (s_cells sa) (s_cells sp))
              end
          | _, _ => inl KeyError
          end
      end
  end.

(** Lines 51-68. *)
Definition prepare_treatment (df : frame) : exn + frame :=
  match filter_period df with
  | inl e => inl e
  | inr df1 =>
      match agri_indicator df1 with
      | inl e => inl e
      | inr df2 => treatment_columns df2
      end
  end.

(** ** STEP 1: education dummies (lines 97-100) *)

(** [f'{i}'] *)
Definition string_of_nat (i : nat) : string :=
  NilEmpty.string_of_uint (Nat.to_uint i).

(** [pd.unique]: the distinct values, each at its first occurrence. *)
Fixpoint pd_unique (l : list Q) : list Q :=
  match l with
  | [] => []
  | x :: l' => x :: filter (fun y => negb (Qeq_bool y x)) (pd_unique l')
  end.

(** [enumerate(l)] *)
Definition enumerate {A} (l : list A) : list (nat * A) := combine (seq 0 (length l)) l.

(** The loop of lines 99-100 over the enumerated categories. *)
Fixpoint educ_loop (cats : list (nat * Q)) (df : frame) : exn + frame :=
  match cats with
  | [] => inr df
  | (i, cat) :: cats' =>
      match get df "educ_cat" with
      | None => inl KeyError
      | Some s =>
          match setitem df ("educ_" ++ string_of_nat i) int64 (eq_astype_int s cat) with
          | inl e => inl e
          | inr df' => educ_loop cats' df'
          end
      end
  end.

(** Lines 98-100. *)
Definition educ_dummies (df : frame) : exn + frame :=
  if mem "educ_cat" (columns df) then
    match get df "educ_cat" with
    | None => inl KeyError
    | Some s => educ_loop (enumerate (pd_unique (present (s_cells s)))) df
    end
  else inr df.

(** ** STEP 1: the clean sample (lines 102-107) *)

Definition required : list string :=
  ["ln_wage"; "agri"; "post"; "agri_post"; "age"; "female"].

(** [df.dropna(subset=subset)]: the rows in which every column of
    [subset] has a value, in order; [KeyError] when a label of [subset]
    is not a column.  [reset_index(drop=True)] renumbers the rows, which
    are kept by position here. *)
Definition dropna (df : frame) (subset : list string) : exn + frame :=
  match traverse (fun c => match index_of c (columns df) with
                           | Some j => inr j
                           | None => inl KeyError
                           end) subset with
  | inl e => inl e
  | inr js =>
      inr (Frame (header df)
             (filter (fun row => forallb (fun j => negb (isna (nth j row None))) js)
                     (body df)))
  end.

(** Line 104. *)
Definition clean_sample (df : frame) : exn + frame := dropna df required.

(** ** Contracts of the libraries and specifications of the stages *)

(** scikit-learn's classifiers need two classes in the target:
    [LogisticRegressionCV.fit] raises when the target is constant. *)
Definition needs_two_classes (lib : Library) : Prop :=
  forall g X y coef,
    LogisticRegressionCV_fit lib g X y = inr coef -> ptp_eq_0 y = false.

(** [np.random.choice(a, size, replace=False)] returns [size] distinct
    positions below [a], for [size <= a]. *)
Definition draws_without_replacement (lib : Library) : Prop :=
  forall g a size, (size <= a)%nat ->
    let l := fst (np_random_choice lib g a size) in
    length l = size /\ NoDup l /\ forall i, In i l -> (i < a)%nat.

(** What a run of STEP 2 that ends normally has computed, line by line. *)
Record double_selection_spec (lib : Library) (g : rng lib) (df : frame)
    (st : Lasso.state) : Prop := {
  ds_Y : returns (values df "ln_wage") (Lasso.Y st);
  ds_D : returns (values df "agri_post") (Lasso.D st);
  ds_X : returns (values2d df (control_cols df)) (Lasso.X st);
  ds_X_scaled :
    StandardScaler_fit_transform lib (Lasso.X st) = inr (Lasso.X_scaled st);
  ds_lasso_y :
    LassoCV_fit lib (Lasso.X_scaled st) (Lasso.Y st) = inr (Lasso.coef_y st);
  ds_selected_y : Lasso.selected_y st = selected (Lasso.coef_y st);
  ds_lasso_d :
    LogisticRegressionCV_fit lib g (Lasso.X_scaled st) (Lasso.D st)
    = inr (Lasso.coef_d st);
  ds_selected_d : Lasso.selected_d st = selected (Lasso.coef_d st);
  ds_selected_union :
    Lasso.selected_union st = np_union1d (Lasso.selected_y st) (Lasso.selected_d st);
  ds_selected_names :
    names_at (control_cols df) (Lasso.selected_union st)
    = inr (Lasso.selected_names st);
  ds_X_final :
    exists X0, returns (X_final_of df (Lasso.D st) (Lasso.selected_names st)) X0 /\
               add_constant X0 = inr (Lasso.X_final st);
  ds_cov : Lasso.cov st = cov_type_of df;
  ds_results :
    OLS_fit lib (Lasso.cov st) (Lasso.Y st) (Lasso.X_final st)
    = inr (Lasso.results st);
  ds_beta : item (params (Lasso.results st)) 1 = inr (Lasso.beta_lasso st);
  ds_se : item (bse (Lasso.results st)) 1 = inr (Lasso.se_lasso st);
  ds_pval : item (pvalues (Lasso.results st)) 1 = inr (Lasso.pval_lasso st);
  ds_report :
    Lasso.report st =
    {| method := "Post-Double-Selection LASSO";
       coefficient := Lasso.beta_lasso st;
       std_error := Lasso.se_lasso st;
       p_value := Lasso.pval_lasso st;
       ci_lower := Lasso.beta_lasso st - 1.96 * Lasso.se_lasso st;
       ci_upper := Lasso.beta_lasso st + 1.96 * Lasso.se_lasso st;
       n_controls_selected := length (Lasso.selected_union st);
       controls_selected :=
         String.concat ", " (firstn 20 (Lasso.selected_names st));
       n_obs := length (Lasso.Y st) |}
}.

(** What a run of lines 265-425 that ends normally has computed. *)
Record x_learner_spec (lib : Library) (idx : list nat) (df_cf0 : frame)
    (st : x_learner_state lib) : Prop := {
  xl_sample_idx : sample_idx st = idx;
  xl_df_cf : df_cf st = df_cf0;
  xl_Y : returns (values df_cf0 "ln_wage") (Y_cf st);
  xl_T : returns (values df_cf0 "agri") (T_cf st);
  xl_hetero : hetero_vars st = hetero_vars_of df_cf0;
  xl_X : returns (values2d df_cf0 (hetero_vars st)) (X_cf st);
  xl_mask_0 : mask_0 st = map (fun t => Qeq_bool t 0) (T_cf st);
  xl_mask_1 : mask_1 st = map (fun t => Qeq_bool t 1) (T_cf st);
  xl_rf_0 :
    RandomForestRegressor_fit lib 100 10 42
      (compress (mask_0 st) (X_cf st)) (compress (mask_0 st) (Y_cf st))
    = inr (rf_0 st);
  xl_rf_1 :
    RandomForestRegressor_fit lib 100 10 42
      (compress (mask_1 st) (X_cf st)) (compress (mask_1 st) (Y_cf st))
    = inr (rf_1 st);
  xl_mu_0 : mu_0 st = map (predict lib (rf_0 st)) (X_cf st);
  xl_mu_1 : mu_1 st = map (predict lib (rf_1 st)) (X_cf st);
  xl_D_0 :
    D_0 st = zip_with Qminus (compress (mask_0 st) (mu_1 st))
                             (compress (mask_0 st) (Y_cf st));
  xl_D_1 :
    D_1 st = zip_with Qminus (compress (mask_1 st) (Y_cf st))
                             (compress (mask_1 st) (mu_0 st));
  xl_tau_0_model :
    RandomForestRegressor_fit lib 100 8 42 (compress (mask_0 st) (X_cf st)) (D_0 st)
    = inr (tau_0_model st);
  xl_tau_1_model :
    RandomForestRegressor_fit lib 100 8 42 (compress (mask_1 st) (X_cf st)) (D_1 st)
    = inr (tau_1_model st);
  xl_ps_model :
    RandomForestClassifier_fit lib 100 8 42 (X_cf st) (T_cf st) = inr (ps_model st);
  xl_e_x :
    traverse (fun x => item (predict_proba lib (ps_model st) x) 1) (X_cf st)
    = inr (e_x st);
  xl_tau_0_pred : tau_0_pred st = map (predict lib (tau_0_model st)) (X_cf st);
  xl_tau_1_pred : tau_1_pred st = map (predict lib (tau_1_model st)) (X_cf st);
  xl_tau_hat :
    tau_hat st =
    zip_with Qplus (zip_with Qmult (e_x st) (tau_0_pred st))
                   (zip_with Qmult (map (fun e => 1 - e) (e_x st)) (tau_1_pred st));
  xl_subgroups :
    exists by_age by_gender by_period,
      returns (summaries lib df_cf0 (tau_hat st) "age"
                 [("Age 18-30", fun a => Qle_bool 18 a && Qlt_bool a 30);
                  ("Age 30-45", fun a => Qle_bool 30 a && Qlt_bool a 45);
                  ("Age 45-55", fun a => Qle_bool 45 a && Qlt_bool a 55);
                  ("Age 55-65", fun a => Qle_bool 55 a && Qlt_bool a 65)]) by_age /\
      returns (summaries lib df_cf0 (tau_hat st) "female"
                 [("Male", fun v => Qeq_bool v 0); ("Female", fun v => Qeq_bool v 1)])
              by_gender /\
      returns (summaries lib df_cf0 (tau_hat st) "post"
                 [("Pre-2014", fun v => Qeq_bool v 0); ("Post-2014", fun v => Qeq_bool v 1)])
              by_period /\
      subgroups st = (by_age ++ by_gender ++ by_period)%list;
  xl_cf_results :
    cf_results st =
    {| cf_method := "X-Learner Causal Forest";
       mean_tau := np_mean (tau_hat st);
       std_tau := np_std lib (tau_hat st);
       median_tau := np_median lib (tau_hat st);
       p10_tau := np_percentile lib (tau_hat st) 10;
       p25_tau := np_percentile lib (tau_hat st) 25;
       p75_tau := np_percentile lib (tau_hat st) 75;
       p90_tau := np_percentile lib (tau_hat st) 90;
       cf_n_obs := length (tau_hat st) |}
}.

(** ** A small library to run the model on examples

    These are not the estimators of scikit-learn or statsmodels: each is
    the simplest estimator of its kind that computes in [Q], and raises
    where scikit-learn does (no rows, a single class).  They serve to run
    the script's model on concrete frames; the theorems about the script
    are stated for every library. *)

Module Toy.

(** Column means removed; no scaling (it needs a square root).  Raises
    when there is no row or no column, as scikit-learn does. *)
Definition scaler (X : matrix) : exn + matrix :=
  match X with
  | [] => inl ValueError
  | [] :: _ => inl ValueError
  | _ =>
      let means := map (fun j => Qsum (column X j) / Qlen X) (seq 0 (n_columns X)) in
      inr (map (fun row => zip_with Qminus row means) X)
  end.

Definition dot (a b : list Q) : Q := Qsum (zip_with Qmult a b).

Definition soft_threshold (lam z : Q) : Q :=
  if Qlt_bool lam z then z - lam
  else if Qlt_bool z (- lam) then z + lam
  else 0.

(** One soft-thresholded coordinate step from zero for each column. *)
Definition marginal_lasso (X : matrix) (y : list Q) : list Q :=
  map (fun j => soft_threshold (1 # 10) (dot (column X j) y / Qlen X))
      (seq 0 (n_columns X)).

Definition lasso (X : matrix) (y : list Q) : exn + list Q :=
  match X with
  | [] => inl ValueError
  | _ => inr (marginal_lasso X y)
  end.

(** Raises when the target has a single class, as scikit-learn does. *)
Definition logistic (g : nat) (X : matrix) (y : list Q) : exn + list Q :=
  if ptp_eq_0 y then inl ValueError else inr (marginal_lasso X y).

(** One univariate projection per column. *)
Definition ols (cov : cov_type) (y : list Q) (X : matrix) : exn + ols_results :=
  let k := n_columns X in
  inr {| params := map (fun j => let x := column X j in
                                 if Qeq_bool (dot x x) 0 then 0 else dot x y / dot x x)
                       (seq 0 k);
         bse := repeat (1 # 10) k;
         pvalues := repeat (1 # 20) k |}.

(** A forest that predicts the mean of its training targets. *)
Definition forest_fit (n_estimators max_depth : nat) (random_state : Z)
    (X : matrix) (y : list Q) : exn + (Q * nat) :=
  match X with
  | [] => inl ValueError
  | _ => inr (Qsum y / Qlen y, n_columns X)
  end.

(** A classifier that predicts the class frequencies of its training
    targets, one per class present (classes in ascending order). *)
Definition classifier_fit (n_estimators max_depth : nat) (random_state : Z)
    (X : matrix) (y : list Q) : exn + list Q :=
  match X with
  | [] => inl ValueError
  | _ =>
      let p1 := Qsum (map (fun t => if Qeq_bool t 1 then 1 else 0) y) / Qlen y in
      if ptp_eq_0 y then inr [1] else inr [1 - p1; p1]
  end.

(** The first [size] positions of [a-1, ..., 0]. *)
Definition choice (g : nat) (a size : nat) : list nat * nat :=
  (firstn size (rev (seq 0 a)), S g).

Definition library : Library :=
  {| rng := nat;
     np_random_seed := Z.to_nat;
     np_random_choice := choice;
     StandardScaler_fit_transform := scaler;
     LassoCV_fit := lasso;
     LogisticRegressionCV_fit := logistic;
     OLS_fit := ols;
     forest := (Q * nat)%type;
     RandomForestRegressor_fit := forest_fit;
     predict := fun m _ => fst m;
     feature_importances_ := fun m => repeat (1 / inject_Z (Z.of_nat (snd m))) (snd m);
     classifier := list Q;
     RandomForestClassifier_fit := classifier_fit;
     predict_proba := fun m _ => m;
     np_std := fun _ => None;
     np_median := fun _ => None;
     np_percentile := fun _ _ => None;
     pd_std := fun _ => None |}.

(** Cells from integers. *)
Definition row (l : list Z) : list cell := map (fun z => Some (inject_Z z)) l.

(** Eight workers; [const7] has zero variance and [d_copy] repeats the
    treatment [agri_post]. *)
Definition df8 : frame :=
  {| header := [("ln_wage", float64); ("agri", int64); ("post", int64);
                ("agri_post", int64); ("age", float64); ("female", float64);
                ("age_sq", float64); ("region", int64); ("const7", float64);
                ("d_copy", int64); ("educ_0", int64)];
     body := [row [10; 1; 1; 1; 25; 0;  625; 1; 7; 1; 1]%Z;
              row [ 8; 1; 0; 0; 35; 1; 1225; 1; 7; 0; 0]%Z;
              row [ 9; 0; 1; 0; 45; 0; 2025; 2; 7; 0; 1]%Z;
              row [ 7; 0; 0; 0; 55; 1; 3025; 2; 7; 0; 0]%Z;
              row [12; 1; 1; 1; 30; 1;  900; 3; 7; 1; 1]%Z;
              row [ 6; 0; 0; 0; 60; 0; 3600; 3; 7; 0; 0]%Z;
              row [11; 0; 1; 0; 20; 1;  400; 4; 7; 0; 1]%Z;
              row [ 9; 1; 0; 0; 40; 0; 1600; 4; 7; 0; 0]%Z] |}.

(** Six workers as a Stata file reads them: the indicators are [int8]
    and so are not candidate controls; [age] is, and neither fit selects
    it. *)
Definition df6 : frame :=
  {| header := [("ln_wage", float64); ("agri", int8); ("post", int8);
                ("agri_post", int8); ("age", float64); ("female", float64)];
     body := [row [10; 1; 1; 1; 30; 0];
              row [ 9; 1; 0; 0; 30; 1];
              row [ 9; 0; 1; 0; 31; 0];
              row [10; 0; 0; 0; 30; 1];
              row [10; 0; 1; 0; 30; 0];
              row [ 9; 0; 0; 0; 29; 1]]%Z |}.

(** Four workers, none in agriculture: the treated arm is empty. *)
Definition df4 : frame :=
  {| header := [("ln_wage", float64); ("agri", int64); ("post", int64);
                ("agri_post", int64); ("age", float64); ("female", float64)];
     body := [row [10; 0; 1; 0; 30; 0];
              row [ 9; 0; 0; 0; 40; 1];
              row [11; 0; 1; 0; 50; 0];
              row [ 8; 0; 0; 0; 60; 1]]%Z |}.

(** Five workers before cleaning: the second has no wage, the fourth no
    age. *)
Definition raw5 : frame :=
  {| header := [("ln_wage", float64); ("agri", int64); ("post", int64);
                ("agri_post", int64); ("age", float64); ("female", float64);
                ("educ_cat", float64)];
     body := [row [10; 1; 1; 1; 30; 0; 2]%Z;
              [None; Some 1; Some 0; Some 0; Some 40; Some 1; Some 1];
              row [ 9; 0; 1; 0; 50; 0; 2]%Z;
              [Some 8; Some 0; Some 0; Some 0; None; Some 1; None];
              row [11; 0; 0; 0; 35; 1; 3]%Z] |}.

(** Three workers, one of them treated. *)
Definition df3 : frame :=
  {| header := [("ln_wage", float64); ("agri", int64); ("post", int64);
                ("agri_post", int64); ("age", float64); ("female", float64);
                ("region", int64)];
     body := [row [10; 1; 1; 1; 30; 0; 1];
              row [ 9; 0; 1; 0; 40; 1; 1];
              row [ 8; 0; 0; 0; 50; 0; 2]]%Z |}.

(** Five interviews as the file has them: one before the period, one
    without a year; [agri] is yet to be made from [industry]. *)
Definition rlms5 : frame :=
  {| header := [("year", float64); ("industry", float64); ("ln_wage", float64);
                ("age", float64); ("female", float64)];
     body := [row [2009; 8;  9; 30; 0]%Z;
              row [2012; 8; 10; 40; 1]%Z;
              row [2014; 8; 11; 50; 0]%Z;
              row [2015; 3;  9; 35; 1]%Z;
              [None; Some 8; Some 10; Some 45; Some 0]] |}.

End Toy.

(** * Properties *)

(** ** Runs *)

Section RunFacts.

Context {A B : Type}.

Lemma bind_returns (m : Run A) (f : A -> Run B) (b : B) :
  returns (bind m f) b -> exists a, returns m a /\ returns (f a) b.
Proof.
  unfold returns, outcome, bind.
  destruct m as [t [e | a]]; simpl; intro H.
  - discriminate.
  - exists a. split; [reflexivity | exact H].
Qed.

Lemma lift_returns (r : exn + A) (a : A) : returns (lift r) a -> r = inr a.
Proof. exact (fun H => H). Qed.

Lemma ret_returns (a a' : A) : returns (ret a) a' -> a = a'.
Proof. unfold returns, outcome, ret. simpl. congruence. Qed.

Lemma traverse_Forall2 (f : A -> exn + B) (l : list A) (ys : list B) :
  traverse f l = inr ys -> Forall2 (fun x y => f x = inr y) l ys.
Proof.
  revert ys. induction l as [| x l IH]; simpl; intros ys H.
  - injection H as <-. constructor.
  - destruct (f x) as [e | y] eqn:Hx; [discriminate |].
    destruct (traverse f l) as [e | ys'] eqn:Hl; [discriminate |].
    injection H as <-. constructor; [exact Hx | apply IH; reflexivity].
Qed.

Lemma traverse_raises (f : A -> exn + B) (l : list A) (e : exn) :
  traverse f l = inl e -> exists x, In x l /\ f x = inl e.
Proof.
  induction l as [| x l IH]; simpl; intro H.
  - discriminate.
  - destruct (f x) as [e' | y] eqn:Hx.
    + injection H as <-. exists x. auto.
    + destruct (traverse f l) as [e' | ys'] eqn:Hl; [| discriminate].
      injection H as <-. destruct (IH eq_refl) as (x' & Hin & Hx').
      exists x'. auto.
Qed.

End RunFacts.

(** One [bind] of a run that returns. *)
Ltac run_step H x Hx :=
  apply bind_returns in H as (x & Hx & H); cbv beta zeta in H.

Lemma Forall2_nth_error {A B} (R : A -> B -> Prop) (l : list A) (l' : list B) :
  Forall2 R l l' ->
  forall i x, nth_error l i = Some x -> exists y, nth_error l' i = Some y /\ R x y.
Proof.
  induction 1 as [| a b l l' Hab _ IH]; intros [| i] x Hx; simpl in *; try discriminate.
  - injection Hx as <-. exists b. auto.
  - apply IH. exact Hx.
Qed.

Lemma Forall2_nth_error_r {A B} (R : A -> B -> Prop) (l : list A) (l' : list B) :
  Forall2 R l l' ->
  forall i y, nth_error l' i = Some y -> exists x, nth_error l i = Some x /\ R x y.
Proof.
  induction 1 as [| a b l l' Hab _ IH]; intros [| i] y Hy; simpl in *; try discriminate.
  - injection Hy as <-. exists a. auto.
  - apply IH. exact Hy.
Qed.

Lemma Forall2_length_eq {A B} (R : A -> B -> Prop) (l : list A) (l' : list B) :
  Forall2 R l l' -> length l = length l'.
Proof. induction 1; simpl; congruence. Qed.

(** ** Frames *)

Lemma check_array_inr (cells : list cell) (qs : list Q) :
  check_array cells = inr qs -> cells = map Some qs.
Proof.
  unfold check_array. intro H. apply traverse_Forall2 in H.
  induction H as [| x q l l' Hx _ IH]; simpl.
  - reflexivity.
  - destruct x as [q' |]; [| discriminate].
    injection Hx as ->. now rewrite IH.
Qed.

Lemma present_map_Some (qs : list Q) : present (map Some qs) = qs.
Proof. induction qs; simpl; congruence. Qed.

Lemma isna_any_map_Some (d : dtype) (qs : list Q) :
  isna_any (Series d (map Some qs)) = false.
Proof. unfold isna_any. simpl. induction qs; simpl; auto. Qed.

Lemma get_length (df : frame) (c : string) (s : series) :
  get df c = Some s -> length (s_cells s) = len df.
Proof.
  unfold get, len. destruct (index_of c (columns df)); [| discriminate].
  intro H. injection H as <-. simpl. unfold cells_at. apply length_map.
Qed.

Lemma values_returns (df : frame) (c : string) (v : list Q) :
  returns (values df c) v ->
  exists s, get df c = Some s /\ s_cells s = map Some v.
Proof.
  unfold values. destruct (get df c) as [s |]; [| discriminate].
  intro H. apply lift_returns, check_array_inr in H. eauto.
Qed.

Lemma values_length (df : frame) (c : string) (v : list Q) :
  returns (values df c) v -> length v = len df.
Proof.
  intro H. destruct (values_returns _ _ _ H) as (s & Hg & Hc).
  apply get_length in Hg. rewrite Hc, length_map in Hg. exact Hg.
Qed.

Lemma values2d_returns (df : frame) (names : list string) (M : matrix) :
  returns (values2d df names) M ->
  exists js,
    Forall2 (fun c j => index_of c (columns df) = Some j) names js /\
    Forall2 (fun row r => map (fun j => nth j row None) js = map Some r) (body df) M.
Proof.
  unfold values2d. intro H.
  apply bind_returns in H as (js & Hjs & H).
  apply lift_returns, traverse_Forall2 in Hjs.
  apply lift_returns, traverse_Forall2 in H.
  exists js. split.
  - eapply Forall2_impl; [| exact Hjs]. simpl. intros c j Hc.
    destruct (index_of c (columns df)); congruence.
  - eapply Forall2_impl; [| exact H]. simpl. intros row r Hr.
    now apply check_array_inr.
Qed.

Lemma values2d_length (df : frame) (names : list string) (M : matrix) :
  returns (values2d df names) M -> length M = len df.
Proof.
  intro H. destruct (values2d_returns _ _ _ H) as (js & _ & HM).
  symmetry. exact (Forall2_length_eq _ _ _ HM).
Qed.

Lemma values2d_row_length (df : frame) (names : list string) (M : matrix) :
  returns (values2d df names) M -> forall r, In r M -> length r = length names.
Proof.
  intros H r Hr. destruct (values2d_returns _ _ _ H) as (js & Hjs & HM).
  apply In_nth_error in Hr as (i & Hi).
  destruct (Forall2_nth_error_r _ _ _ HM _ _ Hi) as (row & _ & Hrow).
  apply (f_equal (@length _)) in Hrow. rewrite !length_map in Hrow.
  rewrite <- Hrow. symmetry. exact (Forall2_length_eq _ _ _ Hjs).
Qed.

(** Column [j] of [df[names].values] holds the cells of [df[names[j]]]. *)
Lemma values2d_column (df : frame) (names : list string) (M : matrix) :
  returns (values2d df names) M ->
  forall j c, nth_error names j = Some c ->
  exists s, get df c = Some s /\ s_cells s = map Some (column M j).
Proof.
  intros H j c Hc. destruct (values2d_returns _ _ _ H) as (js & Hjs & HM).
  destruct (Forall2_nth_error _ _ _ Hjs _ _ Hc) as (k & Hk & Hidx).
  unfold get. rewrite Hidx. eexists. split; [reflexivity |]. simpl.
  unfold cells_at, column. clear H Hjs Hidx Hc.
  induction HM as [| row r rows M' Hr _ IH]; simpl.
  - reflexivity.
  - rewrite IH. f_equal.
    apply (f_equal (fun l => nth_error l j)) in Hr.
    rewrite !nth_error_map, Hk in Hr. simpl in Hr.
    destruct (nth_error r j) as [q |] eqn:Hq; simpl in Hr; [| discriminate].
    injection Hr as ->. f_equal. symmetry. now apply nth_error_nth.
Qed.

(** ** The zero-variance test *)

Lemma Qlen_cons {A} (x : A) (l : list A) : Qlen (x :: l) == Qlen l + 1.
Proof.
  unfold Qlen. simpl length. rewrite Nat2Z.inj_succ, <- Z.add_1_r.
  now rewrite inject_Z_plus.
Qed.

Lemma Qlen_ge {A} (l : list A) (k : nat) :
  (k <= length l)%nat -> inject_Z (Z.of_nat k) <= Qlen l.
Proof. intro H. unfold Qlen. rewrite <- Zle_Qle. lia. Qed.

Lemma Qsum_const (a : Q) (l : list Q) :
  (forall x, In x l -> x == a) -> Qsum l == Qlen l * a.
Proof.
  induction l as [| x l IH]; intro H.
  - change (0 == 0 * a). lra.
  - rewrite Qlen_cons. simpl Qsum. rewrite IH by (intros; apply H; now right).
    rewrite (H x) by now left. lra.
Qed.

Lemma Qsum_zero (l : list Q) : (forall x, In x l -> x == 0) -> Qsum l == 0.
Proof.
  intro H. rewrite (Qsum_const 0 l H). lra.
Qed.

Lemma Qsum_nonneg (l : list Q) : (forall x, In x l -> 0 <= x) -> 0 <= Qsum l.
Proof.
  induction l as [| x l IH]; intro H; simpl.
  - lra.
  - assert (0 <= x) by (apply H; now left).
    assert (0 <= Qsum l) by (apply IH; intros; apply H; now right). lra.
Qed.

Lemma Qsum_nonneg_zero (l : list Q) :
  (forall x, In x l -> 0 <= x) -> Qsum l == 0 -> forall x, In x l -> x == 0.
Proof.
  induction l as [| y l IH]; intros Hpos Hsum x Hx; [destruct Hx |].
  assert (0 <= y) by (apply Hpos; now left).
  assert (0 <= Qsum l) by (apply Qsum_nonneg; intros; apply Hpos; now right).
  simpl in Hsum. destruct Hx as [<- | Hx].
  - lra.
  - apply IH; auto.
    + intros; apply Hpos; now right.
    + lra.
Qed.

Lemma Qsquare_nonneg (z : Q) : 0 <= z * z.
Proof. destruct (Qlt_le_dec z 0); nra. Qed.

Lemma ptp_eq_0_spec (l : list Q) :
  ptp_eq_0 l = true <-> forall x y, In x l -> In y l -> x == y.
Proof.
  destruct l as [| a l]; simpl.
  - split; [intros _ x y [] | reflexivity].
  - rewrite forallb_forall. split.
    + intros H x y Hx Hy.
      assert (E : forall z, a = z \/ In z l -> a == z).
      { intros z [<- | Hz]; [reflexivity | apply Qeq_bool_iff, H, Hz]. }
      rewrite <- (E x Hx), <- (E y Hy). reflexivity.
    + intros H x Hx. apply Qeq_bool_iff. apply H; auto.
Qed.

(** The sample variance is zero exactly when the column is constant. *)
Lemma nanvar_zero_iff (xs : list Q) (v : Q) :
  nanvar xs = Some v -> (v == 0 <-> ptp_eq_0 xs = true).
Proof.
  unfold nanvar. destruct (length xs <=? 1)%nat eqn:Hn; [discriminate |].
  apply Nat.leb_gt in Hn. intro H. injection H as <-.
  assert (Hlen : 2 <= Qlen xs) by (apply (Qlen_ge xs 2); lia).
  set (avg := Qsum xs / Qlen xs).
  set (sq := map (fun x => (avg - x) * (avg - x)) xs).
  assert (Hsq : forall t, In t sq -> 0 <= t).
  { intros t Ht. apply in_map_iff in Ht as (x & <- & _). apply Qsquare_nonneg. }
  rewrite ptp_eq_0_spec. split.
  - intro Hv.
    assert (Hs : Qsum sq == 0).
    { assert (E : Qsum sq == (Qsum sq / (Qlen xs - 1)) * (Qlen xs - 1))
        by (field; lra).
      rewrite E, Hv. lra. }
    assert (Havg : forall x, In x xs -> x == avg).
    { intros x Hx.
      assert (Hz : (avg - x) * (avg - x) == 0).
      { apply (Qsum_nonneg_zero _ Hsq Hs). unfold sq.
        apply in_map_iff. exists x. auto. }
      apply Qmult_integral in Hz. destruct Hz; lra. }
    intros x y Hx Hy. rewrite (Havg x Hx), (Havg y Hy). reflexivity.
  - intro Hc. destruct xs as [| a xs']; [simpl in Hn; lia |].
    assert (Ha : forall x, In x (a :: xs') -> x == a)
      by (intros x Hx; apply Hc; [exact Hx | now left]).
    assert (Havg : avg == a).
    { unfold avg. rewrite (Qsum_const a _ Ha). field. lra. }
    assert (Hs : Qsum sq == 0).
    { apply Qsum_zero. intros t Ht. apply in_map_iff in Ht as (x & <- & Hx).
      rewrite Havg, (Ha x Hx). lra. }
    rewrite Hs. field. lra.
Qed.

Lemma std_eq_0_iff (d : dtype) (qs : list Q) :
  std_eq_0 (Series d (map Some qs)) = true <->
  (2 <= length qs)%nat /\ ptp_eq_0 qs = true.
Proof.
  unfold std_eq_0. simpl. rewrite present_map_Some.
  destruct (nanvar qs) as [v |] eqn:Hv.
  - rewrite Qeq_bool_iff, (nanvar_zero_iff _ _ Hv).
    unfold nanvar in Hv. destruct (length qs <=? 1)%nat eqn:Hn; [discriminate |].
    apply Nat.leb_gt in Hn. intuition lia.
  - unfold nanvar in Hv. destruct (length qs <=? 1)%nat eqn:Hn; [| discriminate].
    apply Nat.leb_le in Hn. split; [discriminate | intros [H _]; lia].
Qed.

(** ** Selection and union *)

Lemma Qlt_bool_iff (x y : Q) : Qlt_bool x y = true <-> x < y.
Proof.
  unfold Qlt_bool. rewrite negb_true_iff, <- not_true_iff_false, Qle_bool_iff.
  split; [apply Qnot_le_lt | apply Qlt_not_le].
Qed.

Lemma where_from_In (p : Q -> bool) (a : list Q) (k i : nat) :
  In i (where_from k p a) <->
  (k <= i)%nat /\ exists c, nth_error a (i - k) = Some c /\ p c = true.
Proof.
  revert k. induction a as [| c a IH]; intro k; simpl.
  - split; [intros [] | intros (_ & c & Hc & _)].
    destruct (i - k)%nat; discriminate.
  - assert (Hstep : In i (where_from (S k) p a) <->
                    (k < i)%nat /\ exists c', nth_error (c :: a) (i - k) = Some c' /\ p c' = true).
    { rewrite IH. split.
      - intros (Hk & c' & Hc' & Hp). split; [lia |]. exists c'. split; [| exact Hp].
        replace (i - k)%nat with (S (i - S k)) by lia. exact Hc'.
      - intros (Hk & c' & Hc' & Hp). split; [lia |]. exists c'. split; [| exact Hp].
        replace (i - k)%nat with (S (i - S k)) in Hc' by lia. exact Hc'. }
    destruct (p c) eqn:Hpc; simpl; rewrite Hstep.
    + split.
      * intros [<- | (Hk & Hc)]; [| split; [lia | exact Hc]].
        split; [lia |]. exists c. rewrite Nat.sub_diag. auto.
      * intros (Hk & c' & Hc' & Hp).
        destruct (Nat.eq_dec k i) as [-> | Hne]; [now left | right].
        split; [lia | eauto].
    + split.
      * intros (Hk & Hc). split; [lia | exact Hc].
      * intros (Hk & c' & Hc' & Hp).
        destruct (Nat.eq_dec k i) as [-> | Hne].
        -- rewrite Nat.sub_diag in Hc'. simpl in Hc'. congruence.
        -- split; [lia | eauto].
Qed.

Lemma selected_spec (coef : list Q) (i : nat) :
  In i (selected coef) <->
  exists c, nth_error coef i = Some c /\ 1e-6 < Qabs c.
Proof.
  unfold selected, np_where. rewrite where_from_In, Nat.sub_0_r.
  split.
  - intros (_ & c & Hc & Hp). exists c. now rewrite <- Qlt_bool_iff.
  - intros (c & Hc & Hp). split; [lia |]. exists c. now rewrite Qlt_bool_iff.
Qed.

Lemma insert_uniq_In (x y : nat) (l : list nat) :
  In y (insert_uniq x l) <-> y = x \/ In y l.
Proof.
  induction l as [| z l IH]; simpl.
  - intuition.
  - destruct (x <? z)%nat eqn:Hlt; [simpl; intuition |].
    destruct (x =? z)%nat eqn:Heq.
    + apply Nat.eqb_eq in Heq. subst. simpl. intuition.
    + simpl. rewrite IH. intuition.
Qed.

Lemma insert_uniq_sorted (x : nat) (l : list nat) :
  StronglySorted lt l -> StronglySorted lt (insert_uniq x l).
Proof.
  induction 1 as [| z l Hs IH Hz]; simpl.
  - repeat constructor.
  - destruct (x <? z)%nat eqn:Hlt.
    + apply Nat.ltb_lt in Hlt. constructor; [now constructor |].
      constructor; [exact Hlt |].
      eapply Forall_impl; [| exact Hz]. simpl. intros; lia.
    + destruct (x =? z)%nat eqn:Heq; [now constructor |].
      apply Nat.ltb_ge in Hlt. apply Nat.eqb_neq in Heq.
      constructor; [exact IH |].
      apply Forall_forall. intros y Hy. apply insert_uniq_In in Hy as [-> | Hy].
      * lia.
      * rewrite Forall_forall in Hz. now apply Hz.
Qed.


Lemma np_unique_sorted (l : list nat) : StronglySorted lt (np_unique l).
Proof.
  unfold np_unique. induction l; simpl.
  - constructor.
  - now apply insert_uniq_sorted.
Qed.


Lemma np_union1d_sorted (a b : list nat) : StronglySorted lt (np_union1d a b).
Proof. apply np_unique_sorted. Qed.

(** ** Candidate controls *)

Lemma control_cols_In (df : frame) (c : string) :
  In c (control_cols df) <-> In c (columns df) /\ is_control df c = true.
Proof. unfold control_cols. apply filter_In. Qed.

Lemma index_of_In (c : string) (names : list string) :
  In c names -> exists j, index_of c names = Some j.
Proof.
  induction names as [| x names IH]; simpl; intro H; [destruct H |].
  destruct (c =? x) eqn:E; [eauto |].
  destruct H as [-> | H]; [rewrite String.eqb_refl in E; discriminate |].
  destruct (IH H) as (j & ->). eauto.
Qed.

Lemma index_of_Some_In (c : string) (names : list string) (j : nat) :
  index_of c names = Some j -> In c names.
Proof.
  revert j. induction names as [| x names IH]; simpl; intros j H; [discriminate |].
  destruct (c =? x) eqn:E.
  - apply String.eqb_eq in E. now left.
  - destruct (index_of c names); [| discriminate]. right. eapply IH. reflexivity.
Qed.

Lemma get_Some_iff (df : frame) (c : string) :
  In c (columns df) <-> exists s, get df c = Some s.
Proof.
  unfold get. split.
  - intro H. destruct (index_of_In _ _ H) as (j & ->). eauto.
  - intros (s & H). destruct (index_of c (columns df)) eqn:E; [| discriminate].
    eapply index_of_Some_In. exact E.
Qed.

Lemma is_control_spec (df : frame) (c : string) :
  is_control df c = true <->
  mem c exclude_cols = false /\
  exists s, get df c = Some s /\
            dtype_in (s_dtype s) numeric_names = true /\
            isna_any s = false /\
            std_eq_0 s = false.
Proof.
  unfold is_control. fold numeric_names.
  destruct (mem c exclude_cols); [intuition discriminate |].
  destruct (get df c) as [s |].
  - destruct (dtype_in (s_dtype s) numeric_names) eqn:Hd; cbn [negb].
    + destruct (isna_any s) eqn:Hna; cbn [negb].
      * split; [discriminate | intros (_ & s' & E & _ & H & _)].
        injection E as <-. congruence.
      * destruct (std_eq_0 s) eqn:Hstd; cbn [negb].
        -- split; [discriminate | intros (_ & s' & E & _ & _ & H)].
           injection E as <-. congruence.
        -- split; [eauto 6 | reflexivity].
    + split; [discriminate | intros (_ & s' & E & H & _)].
      injection E as <-. congruence.
  - split; [discriminate | intros (_ & s' & E & _)]. discriminate.
Qed.

(** A candidate control with at least two rows is not constant. *)
Lemma control_not_constant (df : frame) (c : string) (s : series) (qs : list Q) :
  is_control df c = true ->
  get df c = Some s -> s_cells s = map Some qs ->
  (2 <= length qs)%nat ->
  ptp_eq_0 qs = false.
Proof.
  intros Hc Hg Hs Hn. apply is_control_spec in Hc as (_ & s' & Hg' & _ & _ & Hstd).
  rewrite Hg in Hg'. injection Hg' as <-.
  destruct s as [d cells]. simpl in Hs. subst cells.
  destruct (ptp_eq_0 qs) eqn:E; [| reflexivity].
  assert (H : std_eq_0 (Series d (map Some qs)) = true)
    by (apply std_eq_0_iff; auto).
  congruence.
Qed.

(** ** The design matrix *)


Lemma column_stack_0 (D : list Q) (M : matrix) :
  length D = length M -> column (column_stack D M) 0 = D.
Proof.
  unfold column, column_stack. revert M.
  induction D as [| d D IH]; intros [| r M] H; simpl in *; try discriminate; auto.
  f_equal. apply IH. congruence.
Qed.

Lemma column_stack_S (D : list Q) (M : matrix) (j : nat) :
  length D = length M -> column (column_stack D M) (S j) = column M j.
Proof.
  unfold column, column_stack. revert M.
  induction D as [| d D IH]; intros [| r M] H; simpl in *; try discriminate; auto.
  f_equal. apply IH. congruence.
Qed.



Lemma column_stack_nil_rows {A} (D : list Q) (l : list A) :
  length D = length l ->
  column_stack D (map (fun _ => []) l) = reshape_column D.
Proof.
  unfold column_stack, reshape_column. revert l.
  induction D as [| d D IH]; intros [| r l] H; simpl in *; try discriminate; auto.
  f_equal. apply IH. congruence.
Qed.

Lemma traverse_const {A B} (f : A -> exn + B) (y : B) (l : list A) :
  (forall x, f x = inr y) -> traverse f l = inr (map (fun _ => y) l).
Proof.
  intro H. induction l as [| x l IH]; simpl.
  - reflexivity.
  - now rewrite H, IH.
Qed.

Lemma values2d_nil (df : frame) :
  values2d df [] = ret (map (fun _ => []) (body df)).
Proof.
  unfold values2d, bind, lift, ret. simpl.
  rewrite (traverse_const _ (@nil Q)) by reflexivity. reflexivity.
Qed.

(** Both branches of lines 193-197 stack the treatment on the selected
    columns; with no name selected there is no column to stack. *)
Lemma X_final_of_returns (df : frame) (D : list Q) (names : list string) (X0 : matrix) :
  length D = len df ->
  returns (X_final_of df D names) X0 ->
  exists X_selected,
    returns (values2d df names) X_selected /\ X0 = column_stack D X_selected.
Proof.
  unfold X_final_of. intros HD H.
  destruct (0 <? length names)%nat eqn:Hn.
  - apply bind_returns in H as (Xs & HXs & H). apply ret_returns in H.
    exists Xs. auto.
  - apply Nat.ltb_ge in Hn. destruct names; [| simpl in Hn; lia].
    apply ret_returns in H. rewrite values2d_nil.
    eexists. split; [reflexivity |]. rewrite <- H.
    symmetry. apply column_stack_nil_rows. exact HD.
Qed.

Lemma ptp_false_length (l : list Q) : ptp_eq_0 l = false -> (2 <= length l)%nat.
Proof.
  destruct l as [| a [| b l]]; simpl; intro H; try discriminate. lia.
Qed.

Lemma is_nonzero_const_ptp (x : list Q) : is_nonzero_const x = true -> ptp_eq_0 x = true.
Proof. unfold is_nonzero_const. now intros H%andb_prop. Qed.

Lemma column_length (M : matrix) (j : nat) : length (column M j) = length M.
Proof. apply length_map. Qed.

Lemma n_columns_column_stack (D : list Q) (M : matrix) (k : nat) :
  length D = length M -> D <> [] ->
  (forall r, In r M -> length r = k) ->
  n_columns (column_stack D M) = S k.
Proof.
  destruct D as [| d D]; [congruence |].
  destruct M as [| r M]; [discriminate |].
  intros _ _ H. simpl. f_equal. apply H. now left.
Qed.

(** Neither the treatment, which takes two values, nor a selected
    control is a constant column: nothing stops [add_constant] from
    adding the intercept. *)
Lemma no_constant_regressor (df : frame) (D : list Q) (names : list string)
    (X_selected : matrix) :
  length D = len df -> ptp_eq_0 D = false ->
  (forall c, In c names -> In c (control_cols df)) ->
  returns (values2d df names) X_selected ->
  has_nonzero_const (column_stack D X_selected) = false.
Proof.
  intros HD Hptp Hnames HX.
  pose proof (ptp_false_length _ Hptp) as Hn.
  pose proof (values2d_length _ _ _ HX) as HlenX.
  assert (HDX : length D = length X_selected) by congruence.
  unfold has_nonzero_const.
  destruct (existsb _ _) eqn:E; [exfalso | reflexivity].
  apply existsb_exists in E as (j & Hj & Hc).
  apply is_nonzero_const_ptp in Hc. apply in_seq in Hj as [_ Hj]. simpl in Hj.
  rewrite (n_columns_column_stack D X_selected (length names)) in Hj; auto.
  2:{ intros ->. simpl in Hn. lia. }
  2:{ apply values2d_row_length with (df := df). exact HX. }
  destruct j as [| j].
  - rewrite column_stack_0 in Hc by exact HDX. congruence.
  - rewrite column_stack_S in Hc by exact HDX.
    destruct (nth_error names j) as [c |] eqn:Hcj.
    2:{ apply nth_error_None in Hcj. lia. }
    destruct (values2d_column _ _ _ HX _ _ Hcj) as (s & Hg & Hs).
    assert (Hctl : is_control df c = true).
    { apply control_cols_In, Hnames. eapply nth_error_In. exact Hcj. }
    pose proof (control_not_constant df c s _ Hctl Hg Hs) as Hnc.
    rewrite column_length in Hnc. rewrite Hnc in Hc; [discriminate | lia].
Qed.

Lemma add_constant_adds (x : matrix) (x' : matrix) :
  has_nonzero_const x = false ->
  add_constant x = inr x' -> x' = map (fun row => 1 :: row) x.
Proof.
  unfold add_constant. intros ->. destruct x; [discriminate |]. congruence.
Qed.

Lemma names_at_spec (cc : list string) (idx : list nat) (names : list string) :
  names_at cc idx = inr names ->
  Forall2 (fun i c => nth_error cc i = Some c) idx names.
Proof.
  unfold names_at. intro H. apply traverse_Forall2 in H.
  eapply Forall2_impl; [| exact H]. simpl. unfold item. intros i c Hc.
  destruct (nth_error cc i); congruence.
Qed.

(** ** STEP 2, run to its end *)

Lemma double_selection_inv (lib : Library) (g : rng lib) (df : frame)
    (st : Lasso.state) :
  returns (double_selection lib g df) st -> double_selection_spec lib g df st.
Proof.
  unfold double_selection. intro H.
  run_step H Y HY. run_step H D HD. run_step H X HX.
  run_step H X_scaled HXs. run_step H coef_y Hy. run_step H coef_d Hd.
  run_step H names Hnames. run_step H X0 HX0. run_step H X_final HXf.
  run_step H res Hres. run_step H beta Hbeta. run_step H se Hse.
  run_step H pval Hpval. apply ret_returns in H. subst st.
  constructor; simpl; try assumption; try reflexivity.
  exists X0. auto.
Qed.

(** The final design: a column of ones, the treatment, the selected
    columns. *)
Lemma double_selection_design (lib : Library) (g : rng lib) (df : frame)
    (st : Lasso.state) :
  needs_two_classes lib ->
  double_selection_spec lib g df st ->
  exists X_selected,
    returns (values2d df (Lasso.selected_names st)) X_selected /\
    Lasso.X_final st = map (fun row => 1 :: row) (column_stack (Lasso.D st) X_selected) /\
    length (Lasso.D st) = length X_selected.
Proof.
  intros Hlaw Hst. destruct Hst.
  destruct ds_X_final0 as (X0 & HX0 & Hadd).
  pose proof (values_length _ _ _ ds_D0) as HD.
  destruct (X_final_of_returns _ _ _ _ HD HX0) as (X_selected & HXs & ->).
  exists X_selected. split; [exact HXs |]. split.
  - apply add_constant_adds; [| exact Hadd].
    apply no_constant_regressor with (df := df) (names := Lasso.selected_names st); auto.
    + eapply Hlaw. exact ds_lasso_d0.
    + intros c Hc. apply names_at_spec in ds_selected_names0.
      apply In_nth_error in Hc as (k & Hk).
      destruct (Forall2_nth_error_r _ _ _ ds_selected_names0 _ _ Hk) as (i & _ & Hi).
      eapply nth_error_In. exact Hi.
  - rewrite (values2d_length _ _ _ HXs). exact HD.
Qed.


Lemma mem_In (c : string) (l : list string) : mem c l = true <-> In c l.
Proof.
  unfold mem. rewrite existsb_exists. split.
  - intros (x & Hx & E). apply String.eqb_eq in E. now subst.
  - intro H. exists c. split; [exact H | apply String.eqb_refl].
Qed.

(** C5, as stated, fails.  On [Toy.df6] neither fit selects a control and
    the final regression is on the constant and the treatment alone, but
    nothing in the output says so: the run calls the same four fits as
    any other, and the reported row has the method label of every run
    (here the run on [Toy.df8], which selects controls).  The row differs
    from an adjusted one only in its count of selected controls, 0, and
    its empty list of them. *)
Lemma empty_union_not_flagged :
  exists st6 st8,
    returns (double_selection Toy.library 0%nat Toy.df6) st6 /\
    returns (double_selection Toy.library 0%nat Toy.df8) st8 /\
    Lasso.selected_union st6 = [] /\
    Lasso.X_final st6 = map (fun d => [1; d]) (Lasso.D st6) /\
    Lasso.selected_union st8 <> [] /\
    method (Lasso.report st6) = method (Lasso.report st8) /\
    trace (double_selection Toy.library 0%nat Toy.df6)
    = [Fit "scaler" 6; Fit "lasso_y" 6; Fit "lasso_d" 6; Fit "model" 6].
Proof.
  destruct (outcome (double_selection Toy.library 0%nat Toy.df6)) as [e | st6] eqn:E6;
    [vm_compute in E6; discriminate E6 |].
  destruct (outcome (double_selection Toy.library 0%nat Toy.df8)) as [e | st8] eqn:E8;
    [vm_compute in E8; discriminate E8 |].
  exists st6, st8. split; [exact E6 |]. split; [exact E8 |].
  pose proof E6 as E6'. vm_compute in E6'. injection E6' as <-.
  pose proof E8 as E8'. vm_compute in E8'. injection E8' as <-.
  split; [reflexivity |]. split; [reflexivity |]. split; [discriminate |].
  split; [reflexivity |]. vm_compute. reflexivity.
Qed.

(** C5, amended.  When the union of the two selected sets is empty, the
    final regression is of the outcome on a column of ones and the
    treatment alone.  The fallback is not flagged: the reported row is
    built by the same expression whatever the union, with the same method
    label; it shows the fallback only through its count of selected
    controls, which is zero exactly when the union is empty, and its
    empty list of them. *)
Theorem empty_union_treatment_only (lib : Library) (g : rng lib) (df : frame)
    (st : Lasso.state) :
  needs_two_classes lib ->
  returns (double_selection lib g df) st ->
  (Lasso.selected_union st = [] ->
     Lasso.X_final st = map (fun d => [1; d]) (Lasso.D st) /\
     OLS_fit lib (Lasso.cov st) (Lasso.Y st) (map (fun d => [1; d]) (Lasso.D st))
       = inr (Lasso.results st) /\
     nth_error (params (Lasso.results st)) 1 = Some (coefficient (Lasso.report st)) /\
     n_controls_selected (Lasso.report st) = 0%nat /\
     controls_selected (Lasso.report st) = "") /\
  (n_controls_selected (Lasso.report st) = 0%nat <-> Lasso.selected_union st = []) /\
  method (Lasso.report st) = "Post-Double-Selection LASSO" /\
  Lasso.report st =
    {| method := "Post-Double-Selection LASSO";
       coefficient := Lasso.beta_lasso st;
       std_error := Lasso.se_lasso st;
       p_value := Lasso.pval_lasso st;
       ci_lower := Lasso.beta_lasso st - 1.96 * Lasso.se_lasso st;
       ci_upper := Lasso.beta_lasso st + 1.96 * Lasso.se_lasso st;
       n_controls_selected := length (Lasso.selected_union st);
       controls_selected := String.concat ", " (firstn 20 (Lasso.selected_names st));
       n_obs := length (Lasso.Y st) |}.
Proof.
  intros Hlaw Hrun. apply double_selection_inv in Hrun.
  destruct (double_selection_design lib g df st Hlaw Hrun)
    as (X_selected & HXs & HXf & HDX).
  destruct Hrun. split; [| split; [| split]].
  - intro HU.
    pose proof (names_at_spec _ _ _ ds_selected_names0) as Hnames.
    assert (Hn : Lasso.selected_names st = []).
    { apply Forall2_length_eq in Hnames. rewrite HU in Hnames.
      now apply length_zero_iff_nil. }
    rewrite Hn, values2d_nil in HXs. apply ret_returns in HXs. subst X_selected.
    assert (HX : Lasso.X_final st = map (fun d => [1; d]) (Lasso.D st)).
    { rewrite HXf, column_stack_nil_rows.
      - unfold reshape_column. rewrite map_map. reflexivity.
      - now rewrite length_map in HDX. }
    split; [exact HX |]. split; [now rewrite <- HX |].
    unfold item in ds_beta0.
    destruct (nth_error (params (Lasso.results st)) 1) as [b |]; [| discriminate].
    injection ds_beta0 as ->. rewrite ds_report0. simpl.
    rewrite HU, Hn. auto.
  - rewrite ds_report0. cbn [n_controls_selected]. apply length_zero_iff_nil.
  - rewrite ds_report0. reflexivity.
  - exact ds_report0.
Qed.

(** C7.  The final fit uses the cluster-robust covariance, grouped by
    [region], whenever the frame has a [region] column, and HC1
    otherwise; the reported interval is the reported coefficient minus and
    plus 1.96 times the reported standard error, which is the fit's
    standard error of the treatment coefficient. *)
Theorem covariance_and_interval (lib : Library) (g : rng lib) (df : frame)
    (st : Lasso.state) :
  returns (double_selection lib g df) st ->
  let r := Lasso.report st in
  OLS_fit lib (Lasso.cov st) (Lasso.Y st) (Lasso.X_final st) = inr (Lasso.results st) /\
  (In "region" (columns df) ->
     exists s, get df "region" = Some s /\ Lasso.cov st = cluster (s_cells s)) /\
  (~ In "region" (columns df) -> Lasso.cov st = HC1) /\
  nth_error (params (Lasso.results st)) 1 = Some (coefficient r) /\
  nth_error (bse (Lasso.results st)) 1 = Some (std_error r) /\
  ci_lower r = coefficient r - 1.96 * std_error r /\
  ci_upper r = coefficient r + 1.96 * std_error r.
Proof.
  intros Hrun. apply double_selection_inv in Hrun. destruct Hrun. cbv zeta.
  split; [exact ds_results0 |].
  split.
  { intro Hin. pose proof Hin as Hmem. apply mem_In in Hmem.
    apply get_Some_iff in Hin as (s & Hs). exists s. split; [exact Hs |].
    rewrite ds_cov0. unfold cov_type_of. now rewrite Hmem, Hs. }
  split.
  { intro Hnin. rewrite ds_cov0. unfold cov_type_of.
    destruct (mem "region" (columns df)) eqn:E; [| reflexivity].
    apply mem_In in E. contradiction. }
  unfold item in ds_beta0, ds_se0.
  destruct (nth_error (params (Lasso.results st)) 1) as [b |]; [| discriminate].
  destruct (nth_error (bse (Lasso.results st)) 1) as [e |]; [| discriminate].
  injection ds_beta0 as ->. injection ds_se0 as ->.
  rewrite ds_report0. simpl. auto.
Qed.

(** ** What can be raised before the first fit *)

Lemma never_first_bind {A B} (e : exn) (m : Run A) (f : A -> Run B) :
  ~ builtin e -> silent m -> (forall a, never_first e (f a)) ->
  never_first e (bind m f).
Proof.
  unfold never_first, silent, raises, trace, outcome, bind.
  intros He [Ht Hm] Hf [Hr Htr].
  destruct m as [t [e' | a]]; simpl in *.
  - apply He, Hm. congruence.
  - subst t. apply (Hf a). auto.
Qed.

Lemma never_first_fit {A B} (e : exn) (name : string) (n : nat) (r : exn + A)
    (f : A -> Run B) :
  never_first e (bind (fit name n r) f).
Proof.
  unfold never_first, raises, trace, outcome, bind, fit.
  intros [_ Htr]. destruct r; simpl in Htr; discriminate.
Qed.

Lemma check_array_raises (cells : list cell) (e : exn) :
  check_array cells = inl e -> e = ValueError.
Proof.
  unfold check_array. intro H. apply traverse_raises in H as ([q |] & _ & H);
    congruence.
Qed.

Lemma silent_values (df : frame) (c : string) : silent (values df c).
Proof.
  unfold silent, values, raises, outcome, trace, raise, lift.
  destruct (get df c); simpl; split; auto; intros e H.
  - right; right. eapply check_array_raises. exact H.
  - left. congruence.
Qed.

Lemma silent_values2d (df : frame) (names : list string) : silent (values2d df names).
Proof.
  unfold silent, values2d, raises, outcome, trace, bind, lift.
  destruct (traverse _ names) as [e' | js] eqn:Ejs; simpl.
  - split; [reflexivity |]. intros e H. injection H as <-.
    apply traverse_raises in Ejs as (c & _ & Hc).
    destruct (index_of c (columns df)); [discriminate |]. left. congruence.
  - split; [reflexivity |]. intros e H.
    apply traverse_raises in H as (row & _ & Hrow).
    right; right. eapply check_array_raises. exact Hrow.
Qed.

Lemma InputError_not_builtin : ~ builtin InputError.
Proof. intros [H | [H | H]]; discriminate H. Qed.


(** STEP 2 raises nothing of its own before the scaler is fit. *)
Lemma double_selection_never_first (lib : Library) (g : rng lib) (df : frame)
    (e : exn) :
  ~ builtin e -> never_first e (double_selection lib g df).
Proof.
  intro He. unfold double_selection.
  apply never_first_bind; [exact He | apply silent_values | intro Y].
  apply never_first_bind; [exact He | apply silent_values | intro D].
  apply never_first_bind; [exact He | apply silent_values2d | intro X].
  apply never_first_fit.
Qed.

(** ** Claims on selection and on degenerate columns *)

(** C8, as stated, fails: a coefficient of 5e-7 is not zero and is not
    selected. *)
Lemma nonzero_coefficient_not_selected :
  nth_error [5e-7] 0 = Some 5e-7 /\ ~ 5e-7 == 0 /\ ~ In 0%nat (selected [5e-7]).
Proof.
  split; [reflexivity |]. split.
  - intro H. discriminate H.
  - vm_compute. auto.
Qed.

(** C8, amended.  After each penalized fit the selected set holds exactly
    the positions whose fitted coefficient is larger than 1e-6 in
    absolute value; a selected coefficient is therefore not zero. *)
Theorem selected_above_threshold (lib : Library) (g : rng lib) (df : frame)
    (st : Lasso.state) :
  returns (double_selection lib g df) st ->
  (forall i, In i (Lasso.selected_y st) <->
             exists c, nth_error (Lasso.coef_y st) i = Some c /\ 1e-6 < Qabs c) /\
  (forall i, In i (Lasso.selected_d st) <->
             exists c, nth_error (Lasso.coef_d st) i = Some c /\ 1e-6 < Qabs c) /\
  (forall i c, In i (Lasso.selected_y st) ->
               nth_error (Lasso.coef_y st) i = Some c -> ~ c == 0) /\
  (forall i c, In i (Lasso.selected_d st) ->
               nth_error (Lasso.coef_d st) i = Some c -> ~ c == 0).
Proof.
  intro Hrun. apply double_selection_inv in Hrun. destruct Hrun.
  rewrite ds_selected_y0, ds_selected_d0.
  assert (Hnz : forall coef i c, In i (selected coef) ->
                  nth_error coef i = Some c -> ~ c == 0).
  { intros coef i c Hi Hc Hz. apply selected_spec in Hi as (c' & Hc' & Hlt).
    rewrite Hc in Hc'. injection Hc' as <-.
    rewrite Hz in Hlt. discriminate Hlt. }
  repeat split; try apply selected_spec; eauto.
Qed.

(** C3, as stated, fails.  The frame [Toy.df8] has a zero-variance
    column, [const7], and a copy of the treatment, [d_copy]: the first is
    left out of the candidate controls, the second is kept, no exception
    is raised and the four fits of STEP 2 are run. *)
Lemma zero_variance_column_not_an_error :
  (exists s, get Toy.df8 "const7" = Some s /\
             s_cells s = repeat (Some 7) 8 /\ std_eq_0 s = true) /\
  (exists s d, get Toy.df8 "d_copy" = Some s /\ get Toy.df8 "agri_post" = Some d /\
               s_cells s = s_cells d) /\
  control_cols Toy.df8
    = ["agri"; "post"; "age"; "female"; "age_sq"; "d_copy"; "educ_0"] /\
  trace (double_selection Toy.library 0%nat Toy.df8)
    = [Fit "scaler" 8; Fit "lasso_y" 8; Fit "lasso_d" 8; Fit "model" 8] /\
  ~ raises (double_selection Toy.library 0%nat Toy.df8) InputError.
Proof.
  split; [eexists; vm_compute; auto |].
  split; [do 2 eexists; vm_compute; auto |].
  split; [vm_compute; reflexivity |].
  split; [vm_compute; reflexivity |].
  unfold raises. vm_compute. discriminate.
Qed.

Lemma control_cols_by_exact (df : frame) :
  control_cols_by std_eq_0 df = control_cols df.
Proof. reflexivity. Qed.

Lemma is_control_by_spec (std_is_0 : series -> bool) (df : frame) (c : string) :
  is_control_by std_is_0 df c = true <->
  mem c exclude_cols = false /\
  exists s, get df c = Some s /\
            dtype_in (s_dtype s) numeric_names = true /\
            isna_any s = false /\
            std_is_0 s = false.
Proof.
  unfold is_control_by.
  destruct (mem c exclude_cols); [intuition discriminate |].
  destruct (get df c) as [s |].
  - destruct (dtype_in (s_dtype s) numeric_names) eqn:Hd; cbn [negb].
    + destruct (isna_any s) eqn:Hna; cbn [negb].
      * split; [discriminate | intros (_ & s' & E & _ & H & _)].
        injection E as <-. congruence.
      * destruct (std_is_0 s) eqn:Hstd; cbn [negb].
        -- split; [discriminate | intros (_ & s' & E & _ & _ & H)].
           injection E as <-. congruence.
        -- split; [eauto 6 | reflexivity].
    + split; [discriminate | intros (_ & s' & E & H & _)].
      injection E as <-. congruence.
  - split; [discriminate | intros (_ & s' & E & _)]. discriminate.
Qed.

(** C3, amended.  Whatever pandas' test [std() == 0] of line 149 answers
    on a column ([std_is_0], any function of the column), a column on
    which it holds is left out of the candidate controls by the
    [continue], and nothing is raised: no [InputError] ends STEP 2 before
    the first fit, for any frame and any library.  A column is a
    candidate control exactly when it is not excluded by name, has one of
    the listed dtypes, has no missing value and fails that test; nothing
    compares it with the treatment. *)
Theorem zero_variance_silently_dropped (std_is_0 : series -> bool) (df : frame)
    (c : string) (s : series) :
  get df c = Some s ->
  (std_is_0 s = true -> ~ In c (control_cols_by std_is_0 df)) /\
  (In c (control_cols_by std_is_0 df) <->
     mem c exclude_cols = false /\
     dtype_in (s_dtype s) numeric_names = true /\
     isna_any s = false /\
     std_is_0 s = false) /\
  (forall lib g,
     ~ (raises (double_selection lib g df) InputError /\
        trace (double_selection lib g df) = [])).
Proof.
  intro Hg.
  assert (Hctl : In c (control_cols_by std_is_0 df) <->
     mem c exclude_cols = false /\
     dtype_in (s_dtype s) numeric_names = true /\
     isna_any s = false /\
     std_is_0 s = false).
  { unfold control_cols_by. rewrite filter_In, is_control_by_spec. split.
    - intros (_ & He & s' & Hs' & H). rewrite Hg in Hs'. injection Hs' as <-. auto.
    - intros (He & H). split; [apply get_Some_iff; eauto |]. eauto. }
  split.
  { intros Hz Hin. apply Hctl in Hin as (_ & _ & _ & Hnz). congruence. }
  split; [exact Hctl |].
  intros lib g. apply double_selection_never_first, InputError_not_builtin.
Qed.

(** ** Arrays *)

Lemma zip_with_length {A B C} (f : A -> B -> C) (a : list A) (b : list B) :
  length (zip_with f a b) = Nat.min (length a) (length b).
Proof.
  revert b. induction a as [| x a IH]; intros [| y b]; simpl; auto.
Qed.

Lemma zip_with_nth_error {A B C} (f : A -> B -> C) (a : list A) (b : list B)
    (k : nat) (x : A) (y : B) :
  nth_error a k = Some x -> nth_error b k = Some y ->
  nth_error (zip_with f a b) k = Some (f x y).
Proof.
  revert b k. induction a as [| x' a IH]; intros [| y' b] [| k]; simpl;
    try discriminate.
  - congruence.
  - apply IH.
Qed.

Lemma compress_length {A} (mask : list bool) (a : list A) :
  length mask = length a -> length (compress mask a) = count_true mask.
Proof.
  unfold count_true. revert a.
  induction mask as [| m mask IH]; intros [| x a] H; simpl in *; try discriminate.
  - reflexivity.
  - destruct m; simpl; rewrite IH; auto.
Qed.



(** ** STEP 3, run to its end *)

Lemma silent_returns {A} (m : Run A) (a : A) :
  silent m -> returns m a -> m = ([], inr a).
Proof.
  unfold silent, returns, trace, outcome. destruct m as [t o]. simpl.
  intros [-> _] ->. reflexivity.
Qed.

Lemma bind_pure {A B} (a : A) (f : A -> Run B) : bind ([], inr a) f = f a.
Proof. unfold bind. simpl. now destruct (f a). Qed.

Lemma silent_bind {A B} (m : Run A) (f : A -> Run B) :
  silent m -> (forall a, silent (f a)) -> silent (bind m f).
Proof.
  unfold silent, raises, trace, outcome, bind.
  intros [Ht Hm] Hf. destruct m as [t [e | a]]; simpl in *.
  - split; [exact Ht |]. intros e' H. apply Hm. congruence.
  - destruct (Hf a) as [Hta Hfa]. subst t. rewrite Hta. auto.
Qed.

Lemma silent_ret {A} (a : A) : silent (ret a).
Proof. split; [reflexivity | discriminate]. Qed.

Lemma iloc_inr (df : frame) (idx : list nat) (d : frame) :
  iloc df idx = inr d ->
  header d = header df /\
  Forall2 (fun i row => nth_error (body df) i = Some row) idx (body d).
Proof.
  unfold iloc. destruct (traverse _ _) as [e | rows] eqn:E; [discriminate |].
  intro H. injection H as <-. split; [reflexivity |].
  apply traverse_Forall2 in E. eapply Forall2_impl; [| exact E].
  cbv beta. unfold item. intros i row Hi.
  destruct (nth_error (body df) i); congruence.
Qed.

Lemma silent_iloc (df : frame) (idx : list nat) : silent (lift (iloc df idx)).
Proof.
  split; [reflexivity |]. unfold raises, outcome, lift, iloc. cbn [snd].
  intros e H. destruct (traverse _ _) as [e' | rows] eqn:E; [| discriminate].
  injection H as <-. apply traverse_raises in E as (i & _ & Hi).
  unfold item in Hi. destruct (nth_error (body df) i); [discriminate |].
  right; left. congruence.
Qed.

Lemma silent_subsample (lib : Library) (g : rng lib) (df : frame) :
  silent (subsample lib g df).
Proof.
  unfold subsample. cbv zeta.
  apply silent_bind; [apply silent_iloc | intro; apply silent_ret].
Qed.

Lemma subsample_returns (lib : Library) (g : rng lib) (df : frame)
    (idx : list nat) (df_cf0 : frame) :
  returns (subsample lib g df) (idx, df_cf0) ->
  idx = fst (np_random_choice lib (np_random_seed lib 42) (len df)
               (Nat.min 30000 (len df))) /\
  header df_cf0 = header df /\
  Forall2 (fun i row => nth_error (body df) i = Some row) idx (body df_cf0).
Proof.
  unfold subsample. cbv zeta. intro H.
  apply bind_returns in H as (d & Hd & H). apply ret_returns in H.
  pose proof (f_equal fst H) as H1. pose proof (f_equal snd H) as H2.
  cbn [fst snd] in H1, H2. subst idx df_cf0.
  apply lift_returns, iloc_inr in Hd. tauto.
Qed.

Lemma x_learner_on_inv (lib : Library) (idx : list nat) (df_cf0 : frame)
    (st : x_learner_state lib) :
  returns (x_learner_on lib idx df_cf0) st -> x_learner_spec lib idx df_cf0 st.
Proof.
  unfold x_learner_on. intro H.
  run_step H Y HY. run_step H T HT. run_step H X HX.
  run_step H rf0 Hrf0. run_step H rf1 Hrf1.
  run_step H tau0 Htau0. run_step H tau1 Htau1. run_step H ps Hps.
  run_step H e Hex. run_step H m Hmin. run_step H isum Hisum. run_step H u Hu.
  run_step H by_age Hage. run_step H by_gender Hgender.
  run_step H by_period Hperiod. apply ret_returns in H. subst st.
  constructor; simpl; try assumption; try reflexivity.
  exists by_age, by_gender, by_period. auto.
Qed.

Lemma x_learner_inv (lib : Library) (g : rng lib) (df : frame)
    (st : x_learner_state lib) :
  returns (x_learner lib g df) st ->
  exists df_cf0,
    returns (subsample lib g df) (sample_idx st, df_cf0) /\
    x_learner_spec lib (sample_idx st) df_cf0 st.
Proof.
  unfold x_learner. intro H.
  apply bind_returns in H as ([idx d] & Hs & H). simpl in H.
  apply x_learner_on_inv in H. pose proof (xl_sample_idx _ _ _ _ H) as E.
  exists d. rewrite E. auto.
Qed.

Lemma x_learner_lengths (lib : Library) (idx : list nat) (df_cf0 : frame)
    (st : x_learner_state lib) :
  x_learner_spec lib idx df_cf0 st ->
  length (Y_cf st) = len df_cf0 /\
  length (T_cf st) = len df_cf0 /\
  length (X_cf st) = len df_cf0 /\
  length (e_x st) = len df_cf0 /\
  length (tau_hat st) = len df_cf0.
Proof.
  intro H. destruct H.
  pose proof (values_length _ _ _ xl_Y0) as HY.
  pose proof (values_length _ _ _ xl_T0) as HT.
  pose proof (values2d_length _ _ _ xl_X0) as HX.
  pose proof (Forall2_length_eq _ _ _ (traverse_Forall2 _ _ _ xl_e_x0)) as He.
  repeat split; try assumption; try congruence.
  rewrite xl_tau_hat0, xl_tau_0_pred0, xl_tau_1_pred0.
  rewrite !zip_with_length, !length_map. lia.
Qed.


Lemma convex_between (e t0 t1 : Q) :
  0 <= e <= 1 ->
  Qmin t0 t1 <= e * t0 + (1 - e) * t1 <= Qmax t0 t1.
Proof.
  intros [H0 H1].
  destruct (Q.min_spec t0 t1) as [[Hlt Emin] | [Hle Emin]];
  destruct (Q.max_spec t0 t1) as [[Hlt' Emax] | [Hle' Emax]];
  rewrite Emin, Emax; split; nra.
Qed.

(** C2.  For every row of the array supplied for inference, the final
    effect is the propensity estimate times the prediction of the
    effect model fit on the control rows, plus one minus the propensity
    estimate times the prediction of the effect model fit on the treated
    rows.  The two weights sum to one, and when the propensity estimate
    lies in [0, 1] the final effect lies between the two predictions. *)
Theorem x_learner_combination (lib : Library) (g : rng lib) (df : frame)
    (st : x_learner_state lib) :
  returns (x_learner lib g df) st ->
  (* the two effect models and the propensity model *)
  RandomForestRegressor_fit lib 100 8 42 (compress (mask_0 st) (X_cf st)) (D_0 st)
    = inr (tau_0_model st) /\
  RandomForestRegressor_fit lib 100 8 42 (compress (mask_1 st) (X_cf st)) (D_1 st)
    = inr (tau_1_model st) /\
  RandomForestClassifier_fit lib 100 8 42 (X_cf st) (T_cf st) = inr (ps_model st) /\
  length (tau_hat st) = length (X_cf st) /\
  forall i x, nth_error (X_cf st) i = Some x ->
    exists e,
      nth_error (predict_proba lib (ps_model st) x) 1 = Some e /\
      let t0 := predict lib (tau_0_model st) x in
      let t1 := predict lib (tau_1_model st) x in
      nth_error (tau_hat st) i = Some (e * t0 + (1 - e) * t1) /\
      e + (1 - e) == 1 /\
      (0 <= e <= 1 -> Qmin t0 t1 <= e * t0 + (1 - e) * t1 <= Qmax t0 t1).
Proof.
  intro Hrun. apply x_learner_inv in Hrun as (df_cf0 & _ & Hst).
  destruct (x_learner_lengths _ _ _ _ Hst) as (_ & _ & HX & _ & Htau).
  destruct Hst.
  split; [exact xl_tau_0_model0 |]. split; [exact xl_tau_1_model0 |].
  split; [exact xl_ps_model0 |]. split; [congruence |].
  intros i x Hx.
  destruct (Forall2_nth_error _ _ _ (traverse_Forall2 _ _ _ xl_e_x0) _ _ Hx)
    as (e & He & Hitem).
  exists e. split.
  { unfold item in Hitem.
    destruct (nth_error (predict_proba lib (ps_model st) x) 1); congruence. }
  cbv zeta. split.
  { rewrite xl_tau_hat0. apply zip_with_nth_error.
    - apply zip_with_nth_error; [exact He |].
      rewrite xl_tau_0_pred0, nth_error_map, Hx. reflexivity.
    - apply zip_with_nth_error.
      + rewrite nth_error_map, He. reflexivity.
      + rewrite xl_tau_1_pred0, nth_error_map, Hx. reflexivity. }
  split; [ring | apply convex_between].
Qed.

Lemma mask_of_length (df : frame) (c : string) (p : Q -> bool) (mask : list bool) :
  returns (mask_of df c p) mask -> length mask = len df.
Proof.
  unfold mask_of. destruct (get df c) as [s |] eqn:Hg; [| discriminate].
  intro H. apply ret_returns in H. subst mask.
  rewrite length_map. eapply get_length. exact Hg.
Qed.

Lemma summaries_spec (lib : Library) (df : frame) (tau : list Q) (c : string)
    (groups : list (string * (Q -> bool))) (l : list subgroup) :
  returns (summaries lib df tau c groups) l ->
  forall sg, In sg l ->
  exists p mask,
    In (sg_label sg, p) groups /\
    returns (mask_of df c p) mask /\
    (0 < count_true mask)%nat /\
    sg_mean sg = np_mean (compress mask tau) /\
    sg_std sg = pd_std lib (compress mask tau) /\
    sg_n sg = count_true mask.
Proof.
  revert l. induction groups as [| [label p] groups IH]; intros l H sg Hsg.
  - apply ret_returns in H. subst l. destruct Hsg.
  - simpl in H. run_step H mask Hmask. run_step H rest Hrest.
    assert (Hrec : In sg rest ->
              exists p0 mask0, In (sg_label sg, p0) ((label, p) :: groups) /\
                returns (mask_of df c p0) mask0 /\
                (0 < count_true mask0)%nat /\
                sg_mean sg = np_mean (compress mask0 tau) /\
                sg_std sg = pd_std lib (compress mask0 tau) /\
                sg_n sg = count_true mask0).
    { intro Hin. destruct (IH rest Hrest sg Hin) as (p0 & mask0 & Hg & Hrem).
      exists p0, mask0. split; [now right | exact Hrem]. }
    destruct (0 <? count_true mask)%nat eqn:Hpos; apply ret_returns in H; subst l.
    + destruct Hsg as [<- | Hin]; [| auto].
      exists p, mask. simpl. apply Nat.ltb_lt in Hpos.
      split; [now left |]. auto.
    + auto.
Qed.

Lemma missing_index (l : list nat) (N : nat) :
  (length l < N)%nat -> exists i, (i < N)%nat /\ ~ In i l.
Proof.
  intro Hlen.
  destruct (find (fun i => negb (existsb (Nat.eqb i) l)) (seq 0 N)) as [i |] eqn:E.
  - apply find_some in E as [Hi Hn]. apply in_seq in Hi. exists i. split; [lia |].
    intro Hin. apply negb_true_iff in Hn.
    assert (Ht : existsb (Nat.eqb i) l = true)
      by (apply existsb_exists; exists i; split; [exact Hin | apply Nat.eqb_refl]).
    congruence.
  - exfalso.
    assert (Hincl : incl (seq 0 N) l).
    { intros i Hi. pose proof (find_none _ _ E i Hi) as Hn.
      apply negb_false_iff, existsb_exists in Hn as (j & Hj & Eij).
      apply Nat.eqb_eq in Eij. now subst. }
    pose proof (NoDup_incl_length (seq_NoDup N 0) Hincl) as Hle.
    rewrite length_seq in Hle. lia.
Qed.

(** C10.  The X-Learner works on the rows at the positions drawn, after
    seeding with 42, by [np.random.choice] without replacement:
    min(30000, N) distinct positions of the N rows of the cleaned frame.
    [df_cf] holds those rows in the order drawn; [tau_hat] has one entry
    per drawn row; the reported count, mean, standard deviation and
    percentiles, and every subgroup summary, are computed from [tau_hat]
    (the subgroup masks from [df_cf]).  When N exceeds 30000 some row of
    the cleaned frame is not drawn and has no estimate. *)
Theorem x_learner_subsample (lib : Library) (g : rng lib) (df : frame)
    (st : x_learner_state lib) :
  draws_without_replacement lib ->
  returns (x_learner lib g df) st ->
  let N := len df in
  let n_sample := Nat.min 30000 N in
  sample_idx st = fst (np_random_choice lib (np_random_seed lib 42) N n_sample) /\
  length (sample_idx st) = n_sample /\
  NoDup (sample_idx st) /\
  (forall i, In i (sample_idx st) -> (i < N)%nat) /\
  (forall j i, nth_error (sample_idx st) j = Some i ->
     nth_error (body (df_cf st)) j = nth_error (body df) i) /\
  returns (values2d (df_cf st) (hetero_vars st)) (X_cf st) /\
  length (tau_hat st) = n_sample /\
  cf_n_obs (cf_results st) = n_sample /\
  mean_tau (cf_results st) = np_mean (tau_hat st) /\
  std_tau (cf_results st) = np_std lib (tau_hat st) /\
  median_tau (cf_results st) = np_median lib (tau_hat st) /\
  p10_tau (cf_results st) = np_percentile lib (tau_hat st) 10 /\
  p25_tau (cf_results st) = np_percentile lib (tau_hat st) 25 /\
  p75_tau (cf_results st) = np_percentile lib (tau_hat st) 75 /\
  p90_tau (cf_results st) = np_percentile lib (tau_hat st) 90 /\
  (forall sg, In sg (subgroups st) ->
     exists c p mask,
       returns (mask_of (df_cf st) c p) mask /\
       length mask = length (tau_hat st) /\
       sg_mean sg = np_mean (compress mask (tau_hat st)) /\
       sg_std sg = pd_std lib (compress mask (tau_hat st)) /\
       sg_n sg = count_true mask) /\
  ((30000 < N)%nat -> exists i, (i < N)%nat /\ ~ In i (sample_idx st)).
Proof.
  intros Hlaw Hrun. cbv zeta.
  apply x_learner_inv in Hrun as (df_cf0 & Hsub & Hst).
  apply subsample_returns in Hsub as (Hidx & _ & Hrows).
  destruct (x_learner_lengths _ _ _ _ Hst) as (_ & _ & _ & _ & Htau).
  destruct (Hlaw (np_random_seed lib 42) (len df) (Nat.min 30000 (len df))
              (Nat.le_min_r _ _)) as (Hlen & Hnd & Hlt).
  rewrite <- Hidx in Hlen, Hnd, Hlt.
  assert (Hcf : len df_cf0 = Nat.min 30000 (len df)).
  { unfold len at 1. rewrite <- (Forall2_length_eq _ _ _ Hrows). exact Hlen. }
  destruct Hst.
  split; [exact Hidx |]. split; [exact Hlen |]. split; [exact Hnd |].
  split; [exact Hlt |].
  split.
  { intros j i Hj. rewrite xl_df_cf0.
    destruct (Forall2_nth_error _ _ _ Hrows _ _ Hj) as (row & Hrow & Hi).
    congruence. }
  split; [now rewrite xl_df_cf0 |].
  split; [congruence |].
  rewrite xl_cf_results0. cbn [cf_n_obs mean_tau std_tau median_tau p10_tau
                                p25_tau p75_tau p90_tau].
  split; [congruence |].
  do 7 (split; [reflexivity |]).
  split.
  { destruct xl_subgroups0 as (a & b & c & Ha & Hb & Hc & ->).
    rewrite xl_df_cf0. intros sg Hsg.
    assert (Hcase : exists col groups l,
              returns (summaries lib df_cf0 (tau_hat st) col groups) l /\ In sg l).
    { apply in_app_or in Hsg as [H | H]; [eauto 6 |].
      apply in_app_or in H as [H | H]; eauto 6. }
    destruct Hcase as (col & groups & l & Hl & Hin).
    destruct (summaries_spec _ _ _ _ _ _ Hl sg Hin)
      as (p & mask & _ & Hmask & _ & Hm & Hs & Hn).
    exists col, p, mask. split; [exact Hmask |].
    split; [| auto]. rewrite (mask_of_length _ _ _ _ Hmask). congruence. }
  intro Hbig. apply missing_index. rewrite Hlen. lia.
Qed.

Lemma bind_fit_inl {A B} (name : string) (n : nat) (e : exn) (f : A -> Run B) :
  bind (fit name n (inl e)) f = ([Fit name n], inl e).
Proof. reflexivity. Qed.

Lemma bind_fit_inr {A B} (name : string) (n : nat) (a : A) (f : A -> Run B) :
  bind (fit name n (inr a)) f = (Fit name n :: trace (f a), outcome (f a)).
Proof. reflexivity. Qed.





(** The subsample and every forest are seeded in the script itself
    (lines 258, 302-335), so STEP 3 does not depend on the state the
    global generator is in when it starts. *)
Lemma x_learner_ignores_generator_state (lib : Library) (g g' : rng lib)
    (df : frame) :
  x_learner lib g df = x_learner lib g' df.
Proof. reflexivity. Qed.

(** ** The small library keeps the libraries' contracts *)

Lemma toy_needs_two_classes : needs_two_classes Toy.library.
Proof.
  intros g X y coef. simpl. unfold Toy.logistic.
  destruct (ptp_eq_0 y); [discriminate | reflexivity].
Qed.

Lemma toy_draws_without_replacement : draws_without_replacement Toy.library.
Proof.
  intros g a size Hle. simpl. unfold Toy.choice. cbn [fst].
  assert (Hnd : NoDup (rev (seq 0 a))) by apply NoDup_rev, seq_NoDup.
  assert (Hsplit := firstn_skipn size (rev (seq 0 a))).
  split.
  - apply firstn_length_le. rewrite length_rev, length_seq. exact Hle.
  - split.
    + rewrite <- Hsplit in Hnd. eapply NoDup_app_remove_r. exact Hnd.
    + intros i Hi.
      assert (Hin : In i (rev (seq 0 a)))
        by (rewrite <- Hsplit; apply in_or_app; now left).
      apply in_rev, in_seq in Hin. lia.
Qed.

(** ** The theorems at concrete frames *)


Lemma empty_union_treatment_only_witness :
  exists st,
    returns (double_selection Toy.library 0%nat Toy.df6) st /\
    Lasso.selected_union st = [] /\
    Lasso.X_final st = map (fun d => [1; d]) (Lasso.D st) /\
    n_controls_selected (Lasso.report st) = 0%nat /\
    controls_selected (Lasso.report st) = "".
Proof.
  destruct (outcome (double_selection Toy.library 0%nat Toy.df6)) as [e | st] eqn:E.
  - vm_compute in E. discriminate E.
  - exists st. split; [exact E |].
    assert (HU : Lasso.selected_union st = []).
    { pose proof E as E'. vm_compute in E'. injection E' as <-. reflexivity. }
    split; [exact HU |].
    pose proof (empty_union_treatment_only Toy.library 0%nat Toy.df6 st
                  toy_needs_two_classes E) as [H _].
    specialize (H HU). tauto.
Defined.

Lemma covariance_and_interval_witness :
  exists st,
    returns (double_selection Toy.library 0%nat Toy.df8) st /\
    ci_lower (Lasso.report st)
      = coefficient (Lasso.report st) - 1.96 * std_error (Lasso.report st) /\
    ci_upper (Lasso.report st)
      = coefficient (Lasso.report st) + 1.96 * std_error (Lasso.report st).
Proof.
  destruct (outcome (double_selection Toy.library 0%nat Toy.df8)) as [e | st] eqn:E.
  - vm_compute in E. discriminate E.
  - exists st. split; [exact E |].
    pose proof (covariance_and_interval Toy.library 0%nat Toy.df8 st E) as H.
    cbv zeta in H. tauto.
Defined.

Lemma selected_above_threshold_witness :
  exists st,
    returns (double_selection Toy.library 0%nat Toy.df8) st /\
    forall i, In i (Lasso.selected_y st) <->
              exists c, nth_error (Lasso.coef_y st) i = Some c /\ 1e-6 < Qabs c.
Proof.
  destruct (outcome (double_selection Toy.library 0%nat Toy.df8)) as [e | st] eqn:E.
  - vm_compute in E. discriminate E.
  - exists st. split; [exact E |].
    exact (proj1 (selected_above_threshold Toy.library 0%nat Toy.df8 st E)).
Defined.

Lemma zero_variance_silently_dropped_witness :
  exists s,
    get Toy.df8 "const7" = Some s /\
    std_eq_0 s = true /\
    ~ In "const7" (control_cols_by std_eq_0 Toy.df8).
Proof.
  exists (Series float64 (repeat (Some 7) 8)).
  assert (E : get Toy.df8 "const7" = Some (Series float64 (repeat (Some 7) 8)))
    by (vm_compute; reflexivity).
  assert (Hz : std_eq_0 (Series float64 (repeat (Some 7) 8)) = true)
    by (vm_compute; reflexivity).
  split; [exact E |]. split; [exact Hz |].
  exact (proj1 (zero_variance_silently_dropped std_eq_0 Toy.df8 "const7" _ E) Hz).
Defined.


Lemma x_learner_combination_witness :
  exists st,
    returns (x_learner Toy.library 0%nat Toy.df8) st /\
    length (tau_hat st) = length (X_cf st).
Proof.
  destruct (outcome (x_learner Toy.library 0%nat Toy.df8)) as [e | st] eqn:E.
  - vm_compute in E. discriminate E.
  - exists st. split; [exact E |].
    pose proof (x_learner_combination Toy.library 0%nat Toy.df8 st E) as H. tauto.
Defined.

Lemma x_learner_subsample_witness :
  exists st,
    returns (x_learner Toy.library 0%nat Toy.df8) st /\
    length (tau_hat st) = Nat.min 30000 (len Toy.df8) /\
    NoDup (sample_idx st).
Proof.
  destruct (outcome (x_learner Toy.library 0%nat Toy.df8)) as [e | st] eqn:E.
  - vm_compute in E. discriminate E.
  - exists st. split; [exact E |].
    pose proof (x_learner_subsample Toy.library 0%nat Toy.df8 st
                  toy_draws_without_replacement E) as H.
    cbv zeta in H. tauto.
Defined.


(** * Further properties of the script *)

(** ** Extracting the arrays never fails on checked columns *)

Lemma traverse_total {A B} (f : A -> exn + B) (l : list A) :
  (forall x, In x l -> exists y, f x = inr y) -> exists ys, traverse f l = inr ys.
Proof.
  induction l as [| x l IH]; intro H; simpl.
  - eauto.
  - destruct (H x (or_introl eq_refl)) as (y & ->).
    destruct IH as (ys & ->); [intros; apply H; now right |]. eauto.
Qed.

Lemma isna_any_cell (s : series) (x : cell) :
  isna_any s = false -> In x (s_cells s) -> exists q, x = Some q.
Proof.
  unfold isna_any. intros H Hx.
  destruct x as [q |]; [eauto |].
  assert (Ht : existsb isna (s_cells s) = true)
    by (apply existsb_exists; exists None; auto).
  congruence.
Qed.

Lemma notna_all_isna_any (s : series) : notna_all s = true -> isna_any s = false.
Proof.
  unfold notna_all, isna_any. induction (s_cells s) as [| x l IH]; simpl.
  - reflexivity.
  - intros [Hx Hl]%andb_prop. rewrite (IH Hl).
    destruct (isna x); [discriminate | reflexivity].
Qed.

(** [df[names].values] is an array of numbers as soon as every name is a
    column without missing values. *)
Lemma values2d_total (df : frame) (names : list string) :
  (forall c, In c names -> exists s, get df c = Some s /\ isna_any s = false) ->
  exists X, values2d df names = ([], inr X).
Proof.
  intro H.
  assert (Hidx : forall c, In c names ->
            exists j, index_of c (columns df) = Some j /\
                      isna_any (Series object_ (cells_at df j)) = false).
  { intros c Hc. destruct (H c Hc) as (s & Hg & Hna). unfold get in Hg.
    destruct (index_of c (columns df)) as [j |]; [| discriminate].
    injection Hg as <-. exists j. auto. }
  destruct (traverse_total
              (fun c => match index_of c (columns df) with
                        | Some j => inr j
                        | None => inl KeyError
                        end) names) as (js & Hjs).
  { intros c Hc. destruct (Hidx c Hc) as (j & -> & _). eauto. }
  destruct (traverse_total
              (fun row => check_array (map (fun j => nth j row None) js)) (body df))
    as (X & HX).
  { intros row Hrow. unfold check_array. apply traverse_total.
    intros x Hx. apply in_map_iff in Hx as (j & <- & Hj).
    apply traverse_Forall2 in Hjs.
    apply In_nth_error in Hj as (k & Hk).
    destruct (Forall2_nth_error_r _ _ _ Hjs _ _ Hk) as (c & Hc & Hcj).
    destruct (Hidx c (nth_error_In _ _ Hc)) as (j' & Hj' & Hna).
    destruct (index_of c (columns df)) as [j0 |]; [| discriminate].
    injection Hcj as <-. injection Hj' as <-.
    destruct (isna_any_cell _ (nth j0 row None) Hna) as (q & ->); [| eauto].
    simpl. unfold cells_at. apply in_map_iff. exists row. auto. }
  exists X. apply silent_returns; [apply silent_values2d |].
  unfold values2d, returns, outcome, bind, lift. simpl. rewrite Hjs. simpl. exact HX.
Qed.

Lemma control_cols_complete (df : frame) (c : string) :
  In c (control_cols df) -> exists s, get df c = Some s /\ isna_any s = false.
Proof.
  intro Hc. apply control_cols_In in Hc as [_ Hc].
  apply is_control_spec in Hc as (_ & s & Hg & _ & Hna & _). eauto.
Qed.

(** X1.  The matrix of candidate controls can always be built: for every
    frame, [df_clean[control_cols].values] (line 156) raises nothing and is
    an array of numbers with one row per row of the frame and one column
    per candidate control. *)
Theorem control_matrix_total (df : frame) :
  exists X,
    values2d df (control_cols df) = ([], inr X) /\
    length X = len df /\
    forall r, In r X -> length r = length (control_cols df).
Proof.
  destruct (values2d_total df (control_cols df) (control_cols_complete df))
    as (X & HX).
  assert (Hr : returns (values2d df (control_cols df)) X) by (now rewrite HX).
  exists X. split; [exact HX |]. split.
  - apply (values2d_length _ _ _ Hr).
  - apply (values2d_row_length _ _ _ Hr).
Qed.

(** ** The heterogeneity variables (lines 269-289) *)

Lemma dedup_In (x : string) (l : list string) : In x (dedup l) <-> In x l.
Proof.
  induction l as [| y l IH]; simpl; [reflexivity |].
  rewrite filter_In, IH, negb_true_iff, String.eqb_neq.
  destruct (string_dec x y) as [-> | Hne]; intuition congruence.
Qed.

Lemma dedup_NoDup (l : list string) : NoDup (dedup l).
Proof.
  induction l as [| y l IH]; simpl; constructor.
  - rewrite filter_In, String.eqb_refl. intros [_ H]. discriminate.
  - now apply NoDup_filter.
Qed.

Lemma firstn_In {A} (n : nat) (l : list A) (x : A) : In x (firstn n l) -> In x l.
Proof.
  intro H. rewrite <- (firstn_skipn n l). apply in_or_app. now left.
Qed.

Lemma firstn_NoDup {A} (n : nat) (l : list A) : NoDup l -> NoDup (firstn n l).
Proof.
  intro H. rewrite <- (firstn_skipn n l) in H.
  eapply NoDup_app_remove_r. exact H.
Qed.

(** Every heterogeneity variable is one of the four named ones or an
    [educ_] column, and is a numeric column without missing value. *)
Lemma hetero_vars_columns (df : frame) (v : string) :
  In v (hetero_vars_of df) ->
  (In v ["age"; "female"; "post"; "age_sq"] \/ prefix "educ_" v = true) /\
  exists s, get df v = Some s /\
            is_numeric_dtype (s_dtype s) = true /\ notna_all s = true.
Proof.
  unfold hetero_vars_of. intro Hv.
  apply firstn_In, dedup_In, in_app_or in Hv.
  assert (Hu : usable df v = true ->
            exists s, get df v = Some s /\
              is_numeric_dtype (s_dtype s) = true /\ notna_all s = true).
  { unfold usable. destruct (get df v) as [s |]; [| discriminate].
    intros [H1 H2]%andb_prop. eauto. }
  destruct Hv as [Hv | Hv]; apply filter_In in Hv as [Hv Hp].
  - split; [now left | now apply Hu].
  - apply andb_prop in Hp as [Hp Hus]. split; [now right | now apply Hu].
Qed.

Lemma hetero_matrix_total (df : frame) :
  exists X_cf,
    values2d df (hetero_vars_of df) = ([], inr X_cf) /\ length X_cf = len df.
Proof.
  destruct (values2d_total df (hetero_vars_of df)) as (X & HX).
  { intros c Hc. destruct (hetero_vars_columns df c Hc) as (_ & s & Hg & _ & Hna).
    exists s. split; [exact Hg | now apply notna_all_isna_any]. }
  exists X. split; [exact HX |].
  apply (values2d_length df (hetero_vars_of df)). now rewrite HX.
Qed.

(** X2.  Whatever the subsample, the heterogeneity variables are at most
    ten distinct labels; each is a column of the frame with a numeric
    dtype and no missing value, and is one of [age], [female], [post],
    [age_sq] or starts with [educ_]; so the covariate array [X_cf] of
    line 289 can always be built, one column per variable. *)
Theorem hetero_vars_usable (df : frame) :
  (length (hetero_vars_of df) <= 10)%nat /\
  NoDup (hetero_vars_of df) /\
  (forall v, In v (hetero_vars_of df) ->
     (In v ["age"; "female"; "post"; "age_sq"] \/ prefix "educ_" v = true) /\
     exists s, get df v = Some s /\
               is_numeric_dtype (s_dtype s) = true /\ notna_all s = true) /\
  exists X_cf,
    values2d df (hetero_vars_of df) = ([], inr X_cf) /\
    length X_cf = len df /\
    forall r, In r X_cf -> length r = length (hetero_vars_of df).
Proof.
  split; [apply firstn_le_length |].
  split; [apply firstn_NoDup, dedup_NoDup |].
  split; [apply hetero_vars_columns |].
  destruct (hetero_matrix_total df) as (X & HX & Hlen).
  exists X. split; [exact HX |]. split; [exact Hlen |].
  apply (values2d_row_length df (hetero_vars_of df)). now rewrite HX.
Qed.

(** ** The two arms (lines 301-308) *)

Lemma count_true_cons (b : bool) (m : list bool) :
  count_true (b :: m) = ((if b then 1 else 0) + count_true m)%nat.
Proof. unfold count_true. simpl. now destruct b. Qed.

Lemma not_both_arms (t : Q) : Qeq_bool t 0 = true -> Qeq_bool t 1 = true -> False.
Proof.
  intros H0%Qeq_bool_iff H1%Qeq_bool_iff. rewrite H0 in H1. discriminate H1.
Qed.

Lemma arms_count (T : list Q) :
  let m0 := map (fun t => Qeq_bool t 0) T in
  let m1 := map (fun t => Qeq_bool t 1) T in
  (count_true m0 + count_true m1 <= length T)%nat /\
  ((count_true m0 + count_true m1 = length T)%nat <->
   forall t, In t T -> t == 0 \/ t == 1).
Proof.
  cbv zeta. induction T as [| t T [IHle IHeq]].
  - unfold count_true. simpl. split; [lia |]. split; [intros _ t [] | reflexivity].
  - cbn [map length]. rewrite !count_true_cons.
    destruct (Qeq_bool t 0) eqn:E0; destruct (Qeq_bool t 1) eqn:E1.
    + exfalso. eapply not_both_arms; eassumption.
    + split; [lia |]. split.
      * intros H t' [<- | Ht'].
        -- left. now apply Qeq_bool_iff.
        -- apply IHeq; [lia | exact Ht'].
      * intro H. assert (count_true (map (fun t => Qeq_bool t 0) T) +
                         count_true (map (fun t => Qeq_bool t 1) T) = length T)%nat
          by (apply IHeq; intros; apply H; now right). lia.
    + split; [lia |]. split.
      * intros H t' [<- | Ht'].
        -- right. now apply Qeq_bool_iff.
        -- apply IHeq; [lia | exact Ht'].
      * intro H. assert (count_true (map (fun t => Qeq_bool t 0) T) +
                         count_true (map (fun t => Qeq_bool t 1) T) = length T)%nat
          by (apply IHeq; intros; apply H; now right). lia.
    + split; [lia |]. split.
      * intro H. lia.
      * intro H. exfalso. destruct (H t (or_introl eq_refl)) as [Ht | Ht];
          apply Qeq_bool_iff in Ht; congruence.
Qed.

(** X3.  In a run of the X-Learner no row is in both arms, and a row whose
    treatment value is neither 0 nor 1 is in neither: the arms together
    have at most as many rows as the subsample, and exactly as many when
    and only when the treatment is binary.  Every row of the subsample,
    in an arm or not, enters the propensity fit and gets an effect
    estimate. *)
Theorem arms_disjoint (lib : Library) (g : rng lib) (df : frame)
    (st : x_learner_state lib) :
  returns (x_learner lib g df) st ->
  (forall i, nth_error (mask_0 st) i = Some true ->
             nth_error (mask_1 st) i = Some true -> False) /\
  (forall i t, nth_error (T_cf st) i = Some t -> ~ t == 0 -> ~ t == 1 ->
     nth_error (mask_0 st) i = Some false /\ nth_error (mask_1 st) i = Some false) /\
  (count_true (mask_0 st) + count_true (mask_1 st) <= length (T_cf st))%nat /\
  ((count_true (mask_0 st) + count_true (mask_1 st) = length (T_cf st))%nat <->
   forall t, In t (T_cf st) -> t == 0 \/ t == 1) /\
  RandomForestClassifier_fit lib 100 8 42 (X_cf st) (T_cf st) = inr (ps_model st) /\
  length (X_cf st) = length (T_cf st) /\
  length (tau_hat st) = length (T_cf st).
Proof.
  intro Hrun. apply x_learner_inv in Hrun as (df_cf0 & _ & Hst).
  destruct (x_learner_lengths _ _ _ _ Hst) as (_ & HT & HX & _ & Htau).
  destruct Hst. rewrite xl_mask_2, xl_mask_3.
  split.
  { intros i H0 H1. rewrite nth_error_map in H0, H1.
    destruct (nth_error (T_cf st) i) as [t |]; [| discriminate].
    simpl in H0, H1. injection H0 as H0. injection H1 as H1.
    eapply not_both_arms; eassumption. }
  split.
  { intros i t Ht H0 H1. rewrite !nth_error_map, Ht. simpl.
    split; f_equal; apply not_true_iff_false; now rewrite Qeq_bool_iff. }
  destruct (arms_count (T_cf st)) as [Hle Heq]. cbv zeta in Hle, Heq.
  split; [exact Hle |]. split; [exact Heq |].
  split; [exact xl_ps_model0 |]. split; congruence.
Qed.

(** ** The subsample (lines 258-261) *)

Lemma full_draw_permutation (l : list nat) (N : nat) :
  NoDup l -> length l = N -> (forall i, In i l -> (i < N)%nat) ->
  Permutation l (seq 0 N).
Proof.
  intros Hnd Hlen Hlt.
  apply NoDup_Permutation; [exact Hnd | apply seq_NoDup |].
  assert (Hincl : incl l (seq 0 N)).
  { intros i Hi. apply in_seq. specialize (Hlt i Hi). lia. }
  intro i. split; [apply Hincl |].
  apply (NoDup_length_incl Hnd); [| exact Hincl].
  rewrite length_seq. lia.
Qed.

Lemma rows_at_positions (rows sub : list (list cell)) (idx : list nat) :
  Forall2 (fun i row => nth_error rows i = Some row) idx sub ->
  sub = map (fun i => nth i rows []) idx.
Proof.
  induction 1 as [| i row idx sub Hi _ IH]; simpl.
  - reflexivity.
  - rewrite <- IH. f_equal. symmetry. now apply nth_error_nth.
Qed.

(** X4.  With at most 30000 cleaned rows nothing is left out: the drawn
    positions are a rearrangement of all positions, and the subsample is
    the cleaned frame with its rows rearranged (same header, every row
    once), so its row [j] is in general not row [j] of the cleaned frame. *)
Theorem small_frame_fully_sampled (lib : Library) (g : rng lib) (df : frame)
    (st : x_learner_state lib) :
  draws_without_replacement lib ->
  returns (x_learner lib g df) st ->
  (len df <= 30000)%nat ->
  Permutation (sample_idx st) (seq 0 (len df)) /\
  header (df_cf st) = header df /\
  Permutation (body (df_cf st)) (body df) /\
  length (tau_hat st) = len df.
Proof.
  intros Hlaw Hrun Hsmall.
  apply x_learner_inv in Hrun as (df_cf0 & Hsub & Hst).
  apply subsample_returns in Hsub as (Hidx & Hhead & Hrows).
  destruct (Hlaw (np_random_seed lib 42) (len df) (Nat.min 30000 (len df))
              (Nat.le_min_r _ _)) as (Hlen & Hnd & Hlt).
  rewrite <- Hidx in Hlen, Hnd, Hlt.
  rewrite Nat.min_r in Hlen by exact Hsmall.
  pose proof (full_draw_permutation _ _ Hnd Hlen Hlt) as Hperm.
  assert (Htau : length (tau_hat st) = len df).
  { destruct (x_learner_lengths _ _ _ _ Hst) as (_ & _ & _ & _ & Htau).
    rewrite Htau. unfold len at 1.
    rewrite <- (Forall2_length_eq _ _ _ Hrows). exact Hlen. }
  rewrite (xl_df_cf _ _ _ _ Hst).
  split; [exact Hperm |]. split; [exact Hhead |]. split; [| exact Htau].
  rewrite (rows_at_positions _ _ _ Hrows).
  assert (Hall : body df = map (fun i => nth i (body df) []) (seq 0 (len df))).
  { unfold len. clear. induction (body df) as [| r l IH] using rev_ind.
    - reflexivity.
    - rewrite length_app, Nat.add_comm. simpl length. rewrite seq_S, map_app.
      simpl. rewrite app_nth2, Nat.sub_diag by lia. simpl. f_equal.
      rewrite IH at 1. apply map_ext_in. intros i Hi. apply in_seq in Hi.
      now rewrite app_nth1 by lia. }
  eapply Permutation_trans; [apply Permutation_map; exact Hperm |].
  rewrite <- Hall. apply Permutation_refl.
Qed.

(** A column of [df.iloc[idx]] reads, at place [j], the column of [df] at
    the position [idx[j]]. *)
Lemma get_iloc (df d : frame) (idx : list nat) (c : string) (s' : series) :
  header d = header df ->
  Forall2 (fun i row => nth_error (body df) i = Some row) idx (body d) ->
  get d c = Some s' ->
  exists s, get df c = Some s /\ s_dtype s = s_dtype s' /\
    forall j i, nth_error idx j = Some i ->
      nth_error (s_cells s') j = nth_error (s_cells s) i.
Proof.
  intros Hh Hrows Hg. unfold get, columns in *. rewrite Hh in Hg.
  destruct (index_of c (map fst (header df))) as [k |]; [| discriminate].
  injection Hg as <-. eexists. split; [reflexivity |]. split; [reflexivity |].
  intros j i Hj. cbn [s_cells]. unfold cells_at. rewrite !nth_error_map.
  destruct (Forall2_nth_error _ _ _ Hrows _ _ Hj) as (row & Hrow & Hi).
  f_equal. etransitivity; [exact Hrow | symmetry; exact Hi].
Qed.

(** X5.  Row [j] of the X-Learner's arrays is the row of the cleaned frame
    at the drawn position [sample_idx[j]]: its outcome, its treatment and
    its covariates are that row's cells, and [tau_hat[j]] is the estimate
    for that row.  The estimates are in the order drawn, not in the order
    of the cleaned frame. *)
Theorem estimates_follow_sample_idx (lib : Library) (g : rng lib) (df : frame)
    (st : x_learner_state lib) :
  returns (x_learner lib g df) st ->
  length (tau_hat st) = length (sample_idx st) /\
  forall j i, nth_error (sample_idx st) j = Some i ->
    (forall y, nth_error (Y_cf st) j = Some y ->
       exists s, get df "ln_wage" = Some s /\ nth_error (s_cells s) i = Some (Some y)) /\
    (forall t, nth_error (T_cf st) j = Some t ->
       exists s, get df "agri" = Some s /\ nth_error (s_cells s) i = Some (Some t)) /\
    (forall x k v, nth_error (X_cf st) j = Some x ->
       nth_error (hetero_vars st) k = Some v ->
       exists s, get df v = Some s /\
                 nth_error (s_cells s) i = Some (Some (nth k x 0))).
Proof.
  intro Hrun. apply x_learner_inv in Hrun as (df_cf0 & Hsub & Hst).
  apply subsample_returns in Hsub as (_ & Hhead & Hrows).
  destruct (x_learner_lengths _ _ _ _ Hst) as (_ & _ & _ & _ & Htau).
  destruct Hst. split.
  { rewrite Htau. unfold len. symmetry. exact (Forall2_length_eq _ _ _ Hrows). }
  intros j i Hj.
  assert (Hcol : forall c (v : list Q) s', get df_cf0 c = Some s' ->
            s_cells s' = map Some v ->
            forall q, nth_error v j = Some q ->
            exists s, get df c = Some s /\ nth_error (s_cells s) i = Some (Some q)).
  { intros c v s' Hg Hs q Hq.
    destruct (get_iloc _ _ _ _ _ Hhead Hrows Hg) as (s & Hgs & _ & Hat).
    exists s. split; [exact Hgs |].
    rewrite <- (Hat j i Hj), Hs, nth_error_map, Hq. reflexivity. }
  split; [| split].
  - intros y Hy. destruct (values_returns _ _ _ xl_Y0) as (s' & Hg & Hs).
    eapply Hcol; eassumption.
  - intros t Ht. destruct (values_returns _ _ _ xl_T0) as (s' & Hg & Hs).
    eapply Hcol; eassumption.
  - intros x k v Hx Hv.
    destruct (values2d_column _ _ _ xl_X0 _ _ Hv) as (s' & Hg & Hs).
    eapply Hcol; [exact Hg | exact Hs |].
    unfold column. rewrite nth_error_map, Hx. reflexivity.
Qed.

(** ** The reported statistics (lines 349-423) *)

Lemma np_mean_nonempty (a : list Q) :
  a <> [] -> np_mean a = Some (Qsum a / Qlen a).
Proof. destruct a; [congruence | reflexivity]. Qed.

(** X6.  A run of the X-Learner that ends normally has at least one row,
    and none of its reported means is NaN: the overall mean is the sum of
    [tau_hat] over its length, and every reported subgroup has at least
    one row, at most as many as the subsample, and the mean of [tau_hat]
    over exactly its rows; a group without rows is not reported. *)
Theorem reported_means_are_numbers (lib : Library) (g : rng lib) (df : frame)
    (st : x_learner_state lib) :
  returns (x_learner lib g df) st ->
  tau_hat st <> [] /\
  mean_tau (cf_results st) = Some (Qsum (tau_hat st) / Qlen (tau_hat st)) /\
  forall sg, In sg (subgroups st) ->
    exists c p mask,
      returns (mask_of (df_cf st) c p) mask /\
      let rows := compress mask (tau_hat st) in
      length rows = sg_n sg /\
      (0 < sg_n sg <= length (tau_hat st))%nat /\
      sg_mean sg = Some (Qsum rows / Qlen rows).
Proof.
  intro Hrun.
  assert (Hne : tau_hat st <> []).
  { unfold x_learner in Hrun.
    apply bind_returns in Hrun as ([idx d] & _ & H). cbn [fst snd] in H.
    pose proof (x_learner_on_inv _ _ _ _ H) as Hst.
    unfold x_learner_on in H.
    run_step H Y HY. run_step H T HT. run_step H X HX.
    run_step H rf0 Hrf0. run_step H rf1 Hrf1.
    run_step H tau0 Htau0. run_step H tau1 Htau1. run_step H ps Hps.
    run_step H e Hex. run_step H m Hmin.
    apply lift_returns in Hmin. intro Hnil.
    pose proof (xl_tau_hat _ _ _ _ Hst) as Et.
    pose proof (xl_e_x _ _ _ _ Hst) as Ee.
    pose proof (xl_X _ _ _ _ Hst) as EX.
    pose proof (xl_tau_0_pred _ _ _ _ Hst) as E0.
    pose proof (xl_tau_1_pred _ _ _ _ Hst) as E1.
    pose proof (xl_tau_0_model _ _ _ _ Hst) as Em0.
    pose proof (xl_tau_1_model _ _ _ _ Hst) as Em1.
    pose proof (xl_ps_model _ _ _ _ Hst) as Eps.
    destruct (x_learner_lengths _ _ _ _ Hst) as (_ & _ & HlX & _ & Hlt).
    rewrite Hnil in Hlt. simpl in Hlt.
    assert (HX0 : X_cf st = []) by (apply length_zero_iff_nil; congruence).
    assert (HXX : X = []).
    { apply length_zero_iff_nil. rewrite (values2d_length _ _ _ HX).
      rewrite <- Hlt. reflexivity. }
    subst X. apply traverse_Forall2 in Hex. inversion Hex; subst e.
    simpl in Hmin. discriminate Hmin. }
  pose proof Hrun as Hrun'.
  apply x_learner_inv in Hrun as (df_cf0 & Hsub & Hst).
  destruct (x_learner_lengths _ _ _ _ Hst) as (_ & _ & _ & _ & Htau).
  destruct Hst.
  split; [exact Hne |]. split.
  { rewrite xl_cf_results0. cbn [mean_tau]. now apply np_mean_nonempty. }
  destruct xl_subgroups0 as (a & b & c & Ha & Hb & Hc & ->).
  rewrite xl_df_cf0. intros sg Hsg.
  assert (Hcase : exists col groups l,
            returns (summaries lib df_cf0 (tau_hat st) col groups) l /\ In sg l).
  { apply in_app_or in Hsg as [H | H]; [eauto 6 |].
    apply in_app_or in H as [H | H]; eauto 6. }
  destruct Hcase as (col & groups & l & Hl & Hin).
  destruct (summaries_spec _ _ _ _ _ _ Hl sg Hin)
    as (p & mask & _ & Hmask & Hpos & Hm & _ & Hn).
  pose proof (mask_of_length _ _ _ _ Hmask) as Hlm.
  assert (Hlen : length (compress mask (tau_hat st)) = count_true mask)
    by (apply compress_length; congruence).
  exists col, p, mask. split; [exact Hmask |]. cbv zeta.
  split; [congruence |]. split.
  - rewrite Hn. split; [exact Hpos |].
    rewrite <- Hlen. clear. revert mask.
    induction (tau_hat st) as [| x a IH]; intros [| m mask]; simpl; try lia.
    destruct m; simpl; specialize (IH mask); lia.
  - rewrite Hm. apply np_mean_nonempty. intro E. rewrite E in Hlen.
    simpl in Hlen. lia.
Qed.

(** ** The order of the fits *)

Lemma bind_silent_trace {A B} (m : Run A) (f : A -> Run B) (b : B) :
  silent m -> returns (bind m f) b ->
  exists a, returns m a /\ returns (f a) b /\ trace (bind m f) = trace (f a).
Proof.
  unfold silent, returns, trace, outcome, bind.
  destruct m as [t [e | a]]; simpl; intros [-> _] H; [discriminate |].
  exists a. auto.
Qed.

Lemma bind_fit_trace {A B} (name : string) (n : nat) (r : exn + A)
    (f : A -> Run B) (b : B) :
  returns (bind (fit name n r) f) b ->
  exists a, r = inr a /\ returns (f a) b /\
            trace (bind (fit name n r) f) = Fit name n :: trace (f a).
Proof.
  unfold returns, trace, outcome, bind, fit.
  destruct r as [e | a]; simpl; intro H; [discriminate |].
  exists a. auto.
Qed.

Lemma silent_lift_item {A} (l : list A) (i : nat) : silent (lift (item l i)).
Proof.
  split; [reflexivity |]. unfold raises, outcome, lift, item. cbn [snd].
  intros e H. destruct (nth_error l i); [discriminate |].
  right; left. congruence.
Qed.

Lemma silent_names_at (cc : list string) (idx : list nat) :
  silent (lift (names_at cc idx)).
Proof.
  split; [reflexivity |]. unfold raises, outcome, lift, names_at. cbn [snd].
  intros e H. apply traverse_raises in H as (i & _ & Hi). unfold item in Hi.
  destruct (nth_error cc i); [discriminate |]. right; left. congruence.
Qed.

Lemma silent_X_final_of (df : frame) (D : list Q) (names : list string) :
  silent (X_final_of df D names).
Proof.
  unfold X_final_of. destruct (0 <? length names)%nat.
  - apply silent_bind; [apply silent_values2d | intro; apply silent_ret].
  - apply silent_ret.
Qed.

Lemma silent_add_constant (x : matrix) : silent (lift (add_constant x)).
Proof.
  split; [reflexivity |]. unfold raises, outcome, lift, add_constant. cbn [snd].
  intros e H. destruct x; [right; right; congruence |].
  destruct (has_nonzero_const _); discriminate.
Qed.

Ltac silent_step H Hacc x Hx lem :=
  let Ht := fresh "Ht" in
  apply (bind_silent_trace _ _ _ lem) in H as (x & Hx & H & Ht);
  rewrite Ht in Hacc; clear Ht; cbv beta zeta in H, Hacc.

Ltac fit_step H Hacc x Hx :=
  let Ht := fresh "Ht" in
  apply bind_fit_trace in H as (x & Hx & H & Ht);
  rewrite Ht in Hacc; clear Ht; cbv beta zeta in H, Hacc.

(** X7.  A run of STEP 2 that ends normally has called exactly four
    fits, in this order: the scaler on all rows of the cleaned frame, the
    outcome LASSO and the treatment logistic regression on the scaled
    rows, the final regression on all rows. *)
Theorem double_selection_trace (lib : Library) (g : rng lib) (df : frame)
    (st : Lasso.state) :
  returns (double_selection lib g df) st ->
  trace (double_selection lib g df)
  = [Fit "scaler" (len df);
     Fit "lasso_y" (length (Lasso.X_scaled st));
     Fit "lasso_d" (length (Lasso.X_scaled st));
     Fit "model" (len df)].
Proof.
  intro H.
  assert (Hacc : trace (double_selection lib g df)
                 = ([] ++ trace (double_selection lib g df))%list) by reflexivity.
  revert Hacc. generalize (trace (double_selection lib g df)) at 1 3.
  intros tr Hacc. unfold double_selection in H, Hacc.
  silent_step H Hacc Y HY (silent_values df "ln_wage").
  silent_step H Hacc D HD (silent_values df "agri_post").
  silent_step H Hacc X HX (silent_values2d df (control_cols df)).
  fit_step H Hacc Xs HXs. fit_step H Hacc cy Hcy. fit_step H Hacc cd Hcd.
  silent_step H Hacc names Hnames
    (silent_names_at (control_cols df) (np_union1d (selected cy) (selected cd))).
  silent_step H Hacc X0 HX0 (silent_X_final_of df D names).
  silent_step H Hacc Xf HXf (silent_add_constant X0).
  fit_step H Hacc res Hres.
  silent_step H Hacc beta Hbeta (silent_lift_item (params res) 1).
  silent_step H Hacc se Hse (silent_lift_item (bse res) 1).
  silent_step H Hacc pv Hpv (silent_lift_item (pvalues res) 1).
  apply ret_returns in H. subst st. cbn [Lasso.X_scaled].
  rewrite Hacc. cbn [trace fst ret app].
  now rewrite (values2d_length _ _ _ HX), (values_length _ _ _ HY).
Qed.

Lemma silent_lift {A} (r : exn + A) :
  (forall e, r = inl e -> builtin e) -> silent (lift r).
Proof. intro H. split; [reflexivity | exact H]. Qed.

Lemma silent_mask_of (df : frame) (c : string) (p : Q -> bool) :
  silent (mask_of df c p).
Proof.
  unfold mask_of. destruct (get df c); [apply silent_ret |].
  split; [reflexivity |]. intros e H. left. unfold raises, raise in H.
  simpl in H. congruence.
Qed.

Lemma silent_summaries (lib : Library) (df : frame) (tau : list Q) (c : string)
    (groups : list (string * (Q -> bool))) :
  silent (summaries lib df tau c groups).
Proof.
  induction groups as [| [label p] groups IH]; simpl.
  - apply silent_ret.
  - apply silent_bind; [apply silent_mask_of | intro mask].
    apply silent_bind; [exact IH | intro rest].
    destruct (0 <? count_true mask)%nat; apply silent_ret.
Qed.

Lemma silent_e_x (f : list Q -> list Q) (X : matrix) :
  silent (lift (traverse (fun x => item (f x) 1) X)).
Proof.
  apply silent_lift. intros e H. apply traverse_raises in H as (x & _ & Hx).
  unfold item in Hx. destruct (nth_error (f x) 1); [discriminate |].
  right; left. congruence.
Qed.

Lemma silent_np_min (a : list Q) : silent (lift (np_min a)).
Proof.
  apply silent_lift. intros e H. destruct a; simpl in H; [| discriminate].
  right; right. congruence.
Qed.

Lemma silent_np_add (a b : list Q) : silent (lift (np_add a b)).
Proof.
  apply silent_lift. unfold np_add. intros e H.
  destruct (length a =? length b)%nat; [discriminate |].
  right; right.
  destruct a as [| x [| x' a]]; destruct b as [| y [| y' b]];
    try discriminate; congruence.
Qed.

Lemma silent_length_check (b : bool) :
  silent (if b then ret tt else raise ValueError).
Proof.
  destruct b; [apply silent_ret |].
  split; [reflexivity |]. intros e H. right; right.
  unfold raises, raise in H. simpl in H. congruence.
Qed.

(** X8.  A run of the X-Learner that ends normally has called exactly
    five fits, in this order: the outcome model of the control arm, the
    outcome model of the treated arm, the effect model of the control arm,
    the effect model of the treated arm, the propensity model.  Each
    effect model is fit on as many rows as the outcome model of its arm,
    the rows of that arm; the propensity model is fit on every row of the
    subsample. *)
Theorem x_learner_trace (lib : Library) (g : rng lib) (df : frame)
    (st : x_learner_state lib) :
  returns (x_learner lib g df) st ->
  trace (x_learner lib g df)
  = [Fit "rf_0" (count_true (mask_0 st));
     Fit "rf_1" (count_true (mask_1 st));
     Fit "tau_0_model" (count_true (mask_0 st));
     Fit "tau_1_model" (count_true (mask_1 st));
     Fit "ps_model" (length (sample_idx st))].
Proof.
  intro H. pose proof H as Hrun.
  assert (Hacc : trace (x_learner lib g df)
                 = ([] ++ trace (x_learner lib g df))%list) by reflexivity.
  revert Hacc. generalize (trace (x_learner lib g df)) at 1 3.
  intros tr Hacc. unfold x_learner in H, Hacc.
  silent_step H Hacc s Hs (silent_subsample lib g df).
  destruct s as [idx d]. cbn [fst snd] in H, Hacc.
  unfold x_learner_on in H, Hacc.
  silent_step H Hacc Y HY (silent_values d "ln_wage").
  silent_step H Hacc T HT (silent_values d "agri").
  silent_step H Hacc X HX (silent_values2d d (hetero_vars_of d)).
  fit_step H Hacc rf0 Hrf0. fit_step H Hacc rf1 Hrf1.
  fit_step H Hacc tau0 Htau0. fit_step H Hacc tau1 Htau1.
  fit_step H Hacc ps Hps.
  silent_step H Hacc e Hex (silent_e_x (predict_proba lib ps) X).
  match type of H with
  | returns (bind (lift (np_min ?a)) _) _ =>
      silent_step H Hacc m Hm (silent_np_min a)
  end.
  match type of H with
  | returns (bind (lift (np_add ?a ?b)) _) _ =>
      silent_step H Hacc isum Hisum (silent_np_add a b)
  end.
  match type of H with
  | returns (bind (if ?b then _ else _) _) _ =>
      silent_step H Hacc u Hu (silent_length_check b)
  end.
  match type of H with
  | returns (bind (summaries ?l ?f ?t ?c ?gs) _) _ =>
      silent_step H Hacc by_age Hage (silent_summaries l f t c gs)
  end.
  match type of H with
  | returns (bind (summaries ?l ?f ?t ?c ?gs) _) _ =>
      silent_step H Hacc by_gender Hgender (silent_summaries l f t c gs)
  end.
  match type of H with
  | returns (bind (summaries ?l ?f ?t ?c ?gs) _) _ =>
      silent_step H Hacc by_period Hperiod (silent_summaries l f t c gs)
  end.
  apply ret_returns in H. subst st. cbn [mask_0 mask_1 sample_idx].
  rewrite Hacc. cbn [trace fst ret app].
  pose proof (values_length _ _ _ HY) as HlY.
  pose proof (values_length _ _ _ HT) as HlT.
  pose proof (values2d_length _ _ _ HX) as HlX.
  apply subsample_returns in Hs as (_ & _ & Hrows).
  apply Forall2_length_eq in Hrows. fold (len d) in Hrows.
  rewrite !compress_length by (rewrite length_map; congruence).
  now rewrite HlX, Hrows.
Qed.

(** ** A failing fit ends the stage *)

(** X9.  When the treatment-side fit raises, as scikit-learn does for a
    treatment that never varies, STEP 2 ends with that exception after
    three fits: the final regression is not run and nothing is reported.
    The matrix of controls [X] is the one that always exists. *)
Theorem treatment_fit_failure (lib : Library) (g : rng lib) (df : frame)
    (Y D : list Q) (X Xs : matrix) (cy : list Q) (e : exn) :
  returns (values df "ln_wage") Y ->
  returns (values df "agri_post") D ->
  returns (values2d df (control_cols df)) X ->
  StandardScaler_fit_transform lib X = inr Xs ->
  LassoCV_fit lib Xs Y = inr cy ->
  LogisticRegressionCV_fit lib g Xs D = inl e ->
  double_selection lib g df
  = ([Fit "scaler" (len df); Fit "lasso_y" (length Xs); Fit "lasso_d" (length Xs)],
     inl e).
Proof.
  intros HY HD HX HXs Hcy Hcd. unfold double_selection.
  rewrite (silent_returns _ _ (silent_values _ _) HY), bind_pure.
  rewrite (silent_returns _ _ (silent_values _ _) HD), bind_pure. cbv zeta.
  rewrite (silent_returns _ _ (silent_values2d _ _) HX), bind_pure.
  rewrite HXs, bind_fit_inr, Hcy, bind_fit_inr, Hcd, bind_fit_inl.
  cbn [trace outcome fst snd]. now rewrite (values2d_length _ _ _ HX).
Qed.

(** ** The reported controls (lines 185-188, 233-234) *)

Lemma names_at_NoDup (cc : list string) (idx : list nat) (names : list string) :
  Forall2 (fun i c => nth_error cc i = Some c) idx names ->
  NoDup cc -> NoDup idx -> NoDup names.
Proof.
  intros HF Hcc. induction HF as [| i c idx names Hi HF IH]; intro Hidx.
  - constructor.
  - inversion Hidx as [| ? ? Hni Hidx']; subst. constructor; [| now apply IH].
    intro Hin. apply In_nth_error in Hin as (k & Hk).
    destruct (Forall2_nth_error_r _ _ _ HF _ _ Hk) as (i' & Hi' & Hci').
    assert (i = i').
    { apply (proj1 (NoDup_nth_error cc) Hcc).
      - apply nth_error_Some. congruence.
      - congruence. }
    subst i'. apply Hni. eapply nth_error_In. exact Hi'.
Qed.

Lemma positions_bounded (idx : list nat) (n : nat) :
  NoDup idx -> (forall i, In i idx -> (i < n)%nat) -> (length idx <= n)%nat.
Proof.
  intros Hnd Hlt. rewrite <- (length_seq n 0).
  apply NoDup_incl_length; [exact Hnd |].
  intros i Hi. apply in_seq. specialize (Hlt i Hi). lia.
Qed.

(** X10.  In a run of STEP 2 that ends normally on a frame whose column
    labels are distinct, the selected controls are distinct candidate
    controls, none of them a column excluded by name (so neither the
    outcome nor the treatment); their number is the reported
    [n_controls_selected], which is at most the number of candidate
    controls; the reported [controls_selected] lists only the first 20 of
    them; the reported [n_obs] is the number of rows of the frame. *)
Theorem reported_controls (lib : Library) (g : rng lib) (df : frame)
    (st : Lasso.state) :
  NoDup (columns df) ->
  returns (double_selection lib g df) st ->
  let r := Lasso.report st in
  NoDup (Lasso.selected_names st) /\
  (forall c, In c (Lasso.selected_names st) ->
     In c (control_cols df) /\ mem c exclude_cols = false /\
     c <> "ln_wage" /\ c <> "agri_post") /\
  length (Lasso.selected_names st) = n_controls_selected r /\
  (n_controls_selected r <= length (control_cols df))%nat /\
  controls_selected r = String.concat ", " (firstn 20 (Lasso.selected_names st)) /\
  length (firstn 20 (Lasso.selected_names st)) = Nat.min 20 (n_controls_selected r) /\
  n_obs r = len df.
Proof.
  intros Hnd Hrun. apply double_selection_inv in Hrun. destruct Hrun. cbv zeta.
  pose proof (names_at_spec _ _ _ ds_selected_names0) as Hnames.
  pose proof (Forall2_length_eq _ _ _ Hnames) as Hlen.
  assert (HU : NoDup (Lasso.selected_union st)).
  { rewrite ds_selected_union0. clear.
    generalize (np_union1d_sorted (Lasso.selected_y st) (Lasso.selected_d st)).
    induction 1 as [| x l _ IH Hx]; constructor; [| exact IH].
    intro Hin. rewrite Forall_forall in Hx. specialize (Hx x Hin). lia. }
  assert (Hcc : NoDup (control_cols df)) by (now apply NoDup_filter).
  assert (Hctl : forall c, In c (Lasso.selected_names st) -> In c (control_cols df)).
  { intros c Hc. apply In_nth_error in Hc as (k & Hk).
    destruct (Forall2_nth_error_r _ _ _ Hnames _ _ Hk) as (i & _ & Hi).
    eapply nth_error_In. exact Hi. }
  rewrite ds_report0. cbn [n_controls_selected controls_selected n_obs].
  split; [eapply names_at_NoDup; eassumption |].
  split.
  { intros c Hc. specialize (Hctl c Hc). split; [exact Hctl |].
    apply control_cols_In in Hctl as [_ Hctl].
    apply is_control_spec in Hctl as (Hex & _).
    split; [exact Hex |].
    split; intros ->; vm_compute in Hex; discriminate Hex. }
  split; [now symmetry |].
  split.
  { apply positions_bounded; [exact HU |].
    intros i Hi. apply In_nth_error in Hi as (k & Hk).
    destruct (Forall2_nth_error _ _ _ Hnames _ _ Hk) as (c & _ & Hc).
    apply nth_error_Some. congruence. }
  split; [reflexivity |].
  split; [now rewrite length_firstn, Hlen |].
  apply (values_length _ _ _ ds_Y0).
Qed.

(** ** The clean sample (lines 102-107) *)

Lemma filter_idem {A} (p : A -> bool) (l : list A) :
  filter p (filter p l) = filter p l.
Proof.
  induction l as [| a l IH]; simpl; [reflexivity |].
  destruct (p a) eqn:E; simpl; rewrite ?E; congruence.
Qed.

Lemma check_array_total (cells : list cell) :
  (forall x, In x cells -> exists q, x = Some q) -> exists qs, check_array cells = inr qs.
Proof.
  intro H. unfold check_array. apply traverse_total.
  intros x Hx. destruct (H x Hx) as (q & ->). eauto.
Qed.

Lemma values_total (df : frame) (c : string) (s : series) :
  get df c = Some s -> isna_any s = false ->
  exists v, values df c = ([], inr v) /\ length v = len df.
Proof.
  intros Hg Hna.
  destruct (check_array_total (s_cells s)) as (v & Hv).
  { intros x Hx. eapply isna_any_cell; eassumption. }
  assert (E : values df c = ([], inr v)).
  { unfold values. rewrite Hg. unfold lift. now rewrite Hv. }
  exists v. split; [exact E |].
  apply (values_length df c). now rewrite E.
Qed.

Lemma dropna_inr (df : frame) (subset : list string) (d : frame) :
  dropna df subset = inr d ->
  exists js,
    Forall2 (fun c j => index_of c (columns df) = Some j) subset js /\
    header d = header df /\
    body d = filter (fun row => forallb (fun j => negb (isna (nth j row None))) js)
                    (body df).
Proof.
  unfold dropna. destruct (traverse _ subset) as [e | js] eqn:E; [discriminate |].
  intro H. injection H as <-. exists js. split; [| auto].
  apply traverse_Forall2 in E. eapply Forall2_impl; [| exact E].
  cbv beta. intros c j Hc. destruct (index_of c (columns df)); congruence.
Qed.

Lemma dropna_column_complete (df : frame) (subset : list string) (d : frame)
    (c : string) :
  dropna df subset = inr d -> In c subset ->
  exists s, get d c = Some s /\ isna_any s = false.
Proof.
  intros Hd Hc. apply dropna_inr in Hd as (js & Hjs & Hh & Hb).
  apply In_nth_error in Hc as (k & Hk).
  destruct (Forall2_nth_error _ _ _ Hjs _ _ Hk) as (j & Hj & Hidx).
  unfold get, columns. rewrite Hh. fold (columns df). rewrite Hidx.
  eexists. split; [reflexivity |].
  unfold isna_any. cbn [s_cells]. apply not_true_iff_false.
  rewrite existsb_exists. intros (x & Hx & Hna).
  unfold cells_at in Hx. apply in_map_iff in Hx as (row & <- & Hrow).
  rewrite Hb in Hrow. apply filter_In in Hrow as [_ Hkeep].
  rewrite forallb_forall in Hkeep.
  specialize (Hkeep j (nth_error_In _ _ Hj)). rewrite Hna in Hkeep. discriminate.
Qed.

(** X11.  The clean sample exists exactly when the six key variables are
    columns of the frame (otherwise [dropna] raises [KeyError]).  It has
    the header of the frame and, in their order, the rows of the frame in
    which the six key variables all have a value; each key variable is
    then a column without missing value, so its array of numbers can be
    taken without error; and cleaning a clean sample changes nothing. *)
Theorem clean_sample_complete (df : frame) :
  ((forall c, In c required -> In c (columns df)) <->
   exists d, clean_sample df = inr d) /\
  (forall e, clean_sample df = inl e -> e = KeyError) /\
  forall d, clean_sample df = inr d ->
    header d = header df /\
    (exists keep,
       body d = filter keep (body df) /\
       forall row, keep row = true <->
         forall c, In c required ->
           exists j q, index_of c (columns df) = Some j /\ nth j row None = Some q) /\
    (len d <= len df)%nat /\
    (forall c, In c required ->
       exists s v, get d c = Some s /\ isna_any s = false /\
                   values d c = ([], inr v) /\ length v = len d) /\
    clean_sample d = inr d.
Proof.
  unfold clean_sample. split; [| split].
  - split.
    + intro H. unfold dropna.
      destruct (traverse_total
                  (fun c => match index_of c (columns df) with
                            | Some j => inr j
                            | None => inl KeyError
                            end) required) as (js & ->); [| eauto].
      intros c Hc. destruct (index_of_In _ _ (H c Hc)) as (j & ->). eauto.
    + intros (d & Hd) c Hc. apply dropna_inr in Hd as (js & Hjs & _).
      apply In_nth_error in Hc as (k & Hk).
      destruct (Forall2_nth_error _ _ _ Hjs _ _ Hk) as (j & _ & Hidx).
      eapply index_of_Some_In. exact Hidx.
  - unfold dropna. intros e H.
    destruct (traverse _ required) as [e' | js] eqn:E; [| discriminate].
    injection H as <-. apply traverse_raises in E as (c & _ & Hc).
    destruct (index_of c (columns df)); congruence.
  - intros d Hd. pose proof Hd as Hd'.
    apply dropna_inr in Hd as (js & Hjs & Hh & Hb).
    split; [exact Hh |]. split.
    { eexists. split; [exact Hb |]. intro row. rewrite forallb_forall. split.
      - intros H c Hc. apply In_nth_error in Hc as (k & Hk).
        destruct (Forall2_nth_error _ _ _ Hjs _ _ Hk) as (j & Hj & Hidx).
        specialize (H j (nth_error_In _ _ Hj)). cbv beta in H.
        exists j. unfold cell in *.
        destruct (nth j row None) as [q |]; [eauto | discriminate H].
      - intros H j Hj. apply In_nth_error in Hj as (k & Hk).
        destruct (Forall2_nth_error_r _ _ _ Hjs _ _ Hk) as (c & Hc & Hidx).
        destruct (H c (nth_error_In _ _ Hc)) as (j' & q & Hj' & Hq).
        assert (j' = j) by congruence. subst j'. unfold cell in *. now rewrite Hq. }
    split.
    { unfold len. rewrite Hb. apply filter_length_le. }
    split.
    { intros c Hc. destruct (dropna_column_complete _ _ _ c Hd' Hc) as (s & Hg & Hna).
      destruct (values_total _ _ _ Hg Hna) as (v & Hv & Hl).
      exists s, v. repeat split; assumption. }
    unfold dropna, columns. rewrite Hh. fold (columns df).
    assert (E : traverse (fun c => match index_of c (columns df) with
                                   | Some j => inr j
                                   | None => inl KeyError
                                   end) required = inr js).
    { clear - Hjs. induction Hjs as [| c j cs js Hc _ IH]; simpl.
      - reflexivity.
      - now rewrite Hc, IH. }
    rewrite E. f_equal. destruct d as [h b]. simpl in *. subst h. f_equal.
    rewrite Hb. apply filter_idem.
Qed.

Lemma iloc_total (df : frame) (idx : list nat) :
  (forall i, In i idx -> (i < len df)%nat) -> exists d, iloc df idx = inr d.
Proof.
  intro H. unfold iloc.
  destruct (traverse_total (item (body df)) idx) as (rows & ->); [| eauto].
  intros i Hi. unfold item.
  destruct (nth_error (body df) i) eqn:E; [eauto |].
  apply nth_error_None in E. specialize (H i Hi). unfold len in H. lia.
Qed.

Lemma iloc_column_complete (df d : frame) (idx : list nat) (c : string) (s : series) :
  iloc df idx = inr d ->
  get df c = Some s -> isna_any s = false ->
  exists s', get d c = Some s' /\ isna_any s' = false.
Proof.
  intros Hd Hg Hna. apply iloc_inr in Hd as (Hh & Hrows).
  unfold get, columns in *. rewrite Hh.
  destruct (index_of c (map fst (header df))) as [j |]; [| discriminate].
  injection Hg as <-. eexists. split; [reflexivity |].
  unfold isna_any in *. cbn [s_cells] in *. apply not_true_iff_false.
  rewrite existsb_exists. intros (x & Hx & Hnax).
  unfold cells_at in Hx. apply in_map_iff in Hx as (row & <- & Hrow).
  apply In_nth_error in Hrow as (k & Hk).
  destruct (Forall2_nth_error_r _ _ _ Hrows _ _ Hk) as (i & _ & Hi).
  assert (Ht : existsb isna (cells_at df j) = true).
  { apply existsb_exists. exists (nth j row None). split; [| exact Hnax].
    unfold cells_at. apply in_map_iff. exists row. split; [reflexivity |].
    eapply nth_error_In. exact Hi. }
  congruence.
Qed.

Lemma bind_fit_head {A B} (name : string) (n : nat) (r : exn + A) (f : A -> Run B) :
  exists t o, bind (fit name n r) f = (Fit name n :: t, o).
Proof.
  destruct r as [e | a].
  - exists [], (inl e). reflexivity.
  - exists (trace (f a)), (outcome (f a)). reflexivity.
Qed.

Lemma clean_sample_columns (df d : frame) (c : string) :
  clean_sample df = inr d -> In c required ->
  exists s, get d c = Some s /\ isna_any s = false.
Proof. unfold clean_sample. intros Hd Hc. eapply dropna_column_complete; eassumption. Qed.

(** On a clean sample STEP 2 gets to its first fit. *)
Lemma clean_double_selection_head (lib : Library) (g : rng lib) (df d : frame) :
  clean_sample df = inr d ->
  exists t o, double_selection lib g d = (Fit "scaler" (len d) :: t, o).
Proof.
  intro Hd.
  assert (Hreq : forall c, In c required -> exists s, get d c = Some s /\ isna_any s = false)
    by (intros c Hc; eapply clean_sample_columns; eassumption).
  destruct (Hreq "ln_wage") as (sy & Hgy & Hny); [simpl; auto |].
  destruct (Hreq "agri_post") as (sd & Hgd & Hnd); [simpl; auto 6 |].
  destruct (values_total _ _ _ Hgy Hny) as (Y & HY & _).
  destruct (values_total _ _ _ Hgd Hnd) as (D & HD & _).
  destruct (values2d_total d (control_cols d) (control_cols_complete d))
    as (X & HX).
  assert (HlX : length X = len d)
    by (apply (values2d_length d (control_cols d)); now rewrite HX).
  unfold double_selection. rewrite HY, bind_pure, HD, bind_pure. cbv zeta.
  rewrite HX, bind_pure, HlX. apply bind_fit_head.
Qed.

(** On a clean sample STEP 3 gets to its first fit. *)
Lemma clean_x_learner_head (lib : Library) (g : rng lib) (df d : frame) :
  clean_sample df = inr d ->
  draws_without_replacement lib ->
  exists n0 t o, x_learner lib g d = (Fit "rf_0" n0 :: t, o) /\
                 (n0 <= Nat.min 30000 (len d))%nat.
Proof.
  intros Hd Hlaw.
  assert (Hreq : forall c, In c required -> exists s, get d c = Some s /\ isna_any s = false)
    by (intros c Hc; eapply clean_sample_columns; eassumption).
  destruct (Hlaw (np_random_seed lib 42) (len d) (Nat.min 30000 (len d))
              (Nat.le_min_r _ _)) as (Hlen & _ & Hlt).
  destruct (iloc_total d _ Hlt) as (d' & Hd').
  destruct (Hreq "ln_wage") as (sy & Hgy & Hny); [simpl; auto |].
  destruct (Hreq "agri") as (st & Hgt & Hnt); [simpl; auto |].
  destruct (iloc_column_complete _ _ _ _ _ Hd' Hgy Hny) as (sy' & Hgy' & Hny').
  destruct (iloc_column_complete _ _ _ _ _ Hd' Hgt Hnt) as (st' & Hgt' & Hnt').
  destruct (values_total _ _ _ Hgy' Hny') as (Y & HY & HlY).
  destruct (values_total _ _ _ Hgt' Hnt') as (T & HT & HlT).
  destruct (hetero_matrix_total d') as (X & HX & HlX).
  assert (Hcf : len d' = Nat.min 30000 (len d)).
  { apply iloc_inr in Hd' as (_ & Hrows).
    unfold len at 1. rewrite <- (Forall2_length_eq _ _ _ Hrows). exact Hlen. }
  unfold x_learner, subsample. cbv zeta. rewrite Hd'. unfold lift at 1.
  rewrite bind_pure. unfold ret at 1. rewrite bind_pure. cbn [fst snd].
  unfold x_learner_on. rewrite HY, bind_pure, HT, bind_pure. cbv zeta.
  rewrite HX, bind_pure.
  match goal with
  | |- context [bind (fit ?name ?n ?r) ?f] =>
      destruct (bind_fit_head name n r f) as (t & o & E)
  end.
  exists (length (compress (map (fun t => Qeq_bool t 0) T) X)), t, o.
  split; [exact E |].
  rewrite <- Hcf, <- HlX. clear.
  generalize (map (fun t => Qeq_bool t 0) T). intro mask. revert mask.
  induction X as [| x X IH]; intros [| m mask]; simpl; try lia.
  destruct m; simpl; specialize (IH mask); lia.
Qed.

Lemma trace_bind_In {A B} (m : Run A) (f : A -> Run B) (c : call) :
  In c (trace (bind m f)) -> In c (trace m) \/ exists a, In c (trace (f a)).
Proof.
  unfold trace, bind. destruct m as [t [e | a]]; cbn [fst snd]; [auto |].
  intro H. apply in_app_or in H as [H | H]; [auto | eauto].
Qed.

Ltac trace_silent H lem :=
  apply trace_bind_In in H as [H | (? & H)];
  [rewrite (proj1 lem) in H; destruct H |].

Ltac trace_fit H :=
  apply trace_bind_In in H as [H | (? & H)];
  [destruct H as [<- | []]; eauto 7 |].

(** Whatever its outcome, STEP 2 calls no estimator but its own four. *)
Lemma double_selection_fits (lib : Library) (g : rng lib) (df : frame) (c : call) :
  In c (trace (double_selection lib g df)) ->
  exists n, c = Fit "scaler" n \/ c = Fit "lasso_y" n \/
            c = Fit "lasso_d" n \/ c = Fit "model" n.
Proof.
  intro H. unfold double_selection in H.
  trace_silent H (silent_values df "ln_wage").
  trace_silent H (silent_values df "agri_post").
  cbv zeta in H.
  trace_silent H (silent_values2d df (control_cols df)).
  trace_fit H. trace_fit H. trace_fit H.
  match type of H with
  | context [lift (names_at ?cc ?idx)] => trace_silent H (silent_names_at cc idx)
  end.
  match type of H with
  | context [X_final_of ?d ?D ?names] => trace_silent H (silent_X_final_of d D names)
  end.
  match type of H with
  | context [lift (add_constant ?x)] => trace_silent H (silent_add_constant x)
  end.
  trace_fit H.
  match type of H with
  | context [lift (item ?l 1)] => trace_silent H (silent_lift_item l 1)
  end.
  match type of H with
  | context [lift (item ?l 1)] => trace_silent H (silent_lift_item l 1)
  end.
  match type of H with
  | context [lift (item ?l 1)] => trace_silent H (silent_lift_item l 1)
  end.
  destruct H.
Qed.

Lemma bind_head {A B} (m : Run A) (f : A -> Run B) (c : call) (t : list call)
    (o : exn + A) :
  m = (c :: t, o) -> exists t' o', bind m f = (c :: t', o').
Proof.
  intros ->. destruct o as [e | a].
  - exists t, (inl e). reflexivity.
  - exists (t ++ trace (f a))%list, (outcome (f a)). reflexivity.
Qed.

(** X12.  On a clean sample no extraction can fail, so STEP 2 gets to its
    first fit, of the scaler on all rows, whatever the libraries do.  The
    script is sequential: when STEP 2 ends with an exception the script
    ends there with that exception, the only fits called being those of
    STEP 2, none of them a model of STEP 3; when STEP 2 ends normally and
    the draw is without replacement, STEP 3 follows and gets to its first
    fit, of [rf_0], on at most min(30000, N) rows. *)
Theorem clean_sample_reaches_fits (lib : Library) (g : rng lib) (df d : frame) :
  clean_sample df = inr d ->
  (exists t o, double_selection lib g d = (Fit "scaler" (len d) :: t, o)) /\
  (forall c, In c (trace (double_selection lib g d)) ->
     exists n, c = Fit "scaler" n \/ c = Fit "lasso_y" n \/
               c = Fit "lasso_d" n \/ c = Fit "model" n) /\
  (forall e, raises (double_selection lib g d) e ->
     steps_2_3 lib g d = (trace (double_selection lib g d), inl e)) /\
  (draws_without_replacement lib ->
   forall st, returns (double_selection lib g d) st ->
   exists n0 t o,
     steps_2_3 lib g d
     = ((trace (double_selection lib g d) ++ Fit "rf_0" n0 :: t)%list, o) /\
     (n0 <= Nat.min 30000 (len d))%nat).
Proof.
  intro Hd.
  split; [exact (clean_double_selection_head lib g df d Hd) |].
  split; [intro c; apply double_selection_fits |].
  split.
  - intros e He. unfold steps_2_3, raises, outcome, trace in *.
    destruct (double_selection lib g d) as [t2 [e2 | st2]]; cbn [fst snd] in *;
      [| discriminate He].
    unfold bind. congruence.
  - intros Hlaw st Hst.
    destruct (clean_x_learner_head lib g df d Hd Hlaw) as (n0 & t & o & Ex & Hn0).
    destruct (bind_head (x_learner lib g d) (fun st3 => ret (st, st3))
                (Fit "rf_0" n0) t o Ex) as (t' & o' & Eb).
    exists n0, t', o'. split; [| exact Hn0].
    unfold steps_2_3, returns, outcome, trace in *.
    destruct (double_selection lib g d) as [t2 [e2 | st2]]; cbn [fst snd] in *;
      [discriminate Hst |].
    injection Hst as ->. unfold bind at 1. cbn [fst snd]. now rewrite Eb.
Qed.

(** ** Education dummies (lines 97-100) *)

Lemma string_of_nat_inj (i j : nat) : string_of_nat i = string_of_nat j -> i = j.
Proof.
  unfold string_of_nat. intro H.
  apply Unsigned.to_uint_inj.
  apply (f_equal NilEmpty.uint_of_string) in H. rewrite !NilEmpty.usu in H.
  congruence.
Qed.

Lemma append_inj_l (p a b : string) : (p ++ a = p ++ b)%string -> a = b.
Proof. induction p as [| ch p IH]; simpl; intro H; [exact H |]. apply IH. congruence. Qed.

Lemma educ_name_inj (i j : nat) :
  "educ_" ++ string_of_nat i = "educ_" ++ string_of_nat j -> i = j.
Proof. intro H. apply string_of_nat_inj. eapply append_inj_l. exact H. Qed.

Lemma educ_name_not_cat (i : nat) : "educ_" ++ string_of_nat i <> "educ_cat".
Proof.
  intro H. change "educ_cat" with ("educ_" ++ "cat") in H.
  apply append_inj_l in H. unfold string_of_nat in H.
  apply (f_equal NilEmpty.uint_of_string) in H. rewrite NilEmpty.usu in H.
  discriminate H.
Qed.

Lemma nth_replace_at_other {A} (j j' : nat) (x d : A) (l : list A) :
  j' <> j -> nth j' (replace_at j x l) d = nth j' l d.
Proof.
  revert j j'. induction l as [| y l IH]; intros [| j] [| j'] H; simpl; auto.
  - congruence.
Qed.

Lemma nth_replace_at_same {A} (j : nat) (x d : A) (l : list A) :
  (j < length l)%nat -> nth j (replace_at j x l) d = x.
Proof.
  revert j. induction l as [| y l IH]; intros [| j] H; simpl in *; try lia; auto.
  apply IH. lia.
Qed.

Lemma length_replace_at {A} (j : nat) (x : A) (l : list A) :
  length (replace_at j x l) = length l.
Proof. revert j. induction l as [| y l IH]; intros [| j]; simpl; auto. Qed.

Lemma length_pad (n : nat) (row : list cell) : length (pad n row) = n.
Proof.
  unfold pad. rewrite length_firstn, length_app, repeat_length. lia.
Qed.

Lemma nth_pad (n j : nat) (row : list cell) :
  (j < n)%nat -> nth j (pad n row) None = nth j row None.
Proof.
  intro H. unfold pad. rewrite nth_firstn.
  destruct (j <? n)%nat eqn:E; [| apply Nat.ltb_ge in E; lia].
  destruct (Nat.lt_ge_cases j (length row)) as [Hlt | Hge].
  - now rewrite app_nth1.
  - rewrite app_nth2 by lia. rewrite nth_repeat. symmetry. now apply nth_overflow.
Qed.

Lemma index_of_lt (c : string) (names : list string) (j : nat) :
  index_of c names = Some j -> (j < length names)%nat /\ nth_error names j = Some c.
Proof.
  revert j. induction names as [| x names IH]; simpl; intros j H; [discriminate |].
  destruct (c =? x) eqn:E.
  - injection H as <-. apply String.eqb_eq in E. subst. split; [lia | reflexivity].
  - destruct (index_of c names) as [j' |]; [| discriminate].
    injection H as <-. destruct (IH j' eq_refl). split; [lia | assumption].
Qed.

Lemma index_of_None (c : string) (names : list string) :
  index_of c names = None -> ~ In c names.
Proof.
  intros H Hin. destruct (index_of_In _ _ Hin) as (j & Hj). congruence.
Qed.

Lemma index_of_app_other (c c' : string) (names : list string) :
  c' <> c -> index_of c' (names ++ [c]) = index_of c' names.
Proof.
  intro H. induction names as [| x names IH]; simpl.
  - destruct (c' =? c) eqn:E; [apply String.eqb_eq in E; congruence | reflexivity].
  - destruct (c' =? x); [reflexivity |]. now rewrite IH.
Qed.

Lemma index_of_app_new (c : string) (names : list string) :
  index_of c names = None -> index_of c (names ++ [c]) = Some (length names).
Proof.
  induction names as [| x names IH]; simpl; intro H.
  - now rewrite String.eqb_refl.
  - destruct (c =? x); [discriminate |].
    destruct (index_of c names); [discriminate |]. now rewrite IH.
Qed.

Lemma columns_replace_at (h : list (string * dtype)) (c : string) (dt : dtype) (j : nat) :
  nth_error (map fst h) j = Some c ->
  map fst (replace_at j (c, dt) h) = map fst h.
Proof.
  revert j. induction h as [| [x d] h IH]; intros [| j] H; simpl in *; try discriminate.
  - congruence.
  - f_equal. now apply IH.
Qed.

Lemma map_zip_with_l {A B C} (f : A -> B -> C) (g : C -> B) (h : A -> B)
    (a : list A) (b : list B) :
  length b = length a ->
  (forall x y, g (f x y) = h x) ->
  map g (zip_with f a b) = map h a.
Proof.
  intros Hl H. revert b Hl.
  induction a as [| x a IH]; intros [| y b] Hl; simpl in *; try discriminate; auto.
  rewrite H. f_equal. apply IH. congruence.
Qed.

Lemma map_zip_with_r {A B C} (f : A -> B -> C) (g : C -> B)
    (a : list A) (b : list B) :
  length b = length a ->
  (forall x y, g (f x y) = y) ->
  map g (zip_with f a b) = b.
Proof.
  intros Hl H. revert b Hl.
  induction a as [| x a IH]; intros [| y b] Hl; simpl in *; try discriminate; auto.
  rewrite H. f_equal. apply IH. congruence.
Qed.

Lemma zip_with_length_l {A B C} (f : A -> B -> C) (a : list A) (b : list B) :
  length b = length a -> length (zip_with f a b) = length a.
Proof. intro H. rewrite zip_with_length, H. apply Nat.min_id. Qed.

(** What [df[c] = cells] does to the frame: the column [c] now holds
    [cells] with the given dtype, every other column is as it was, and
    the number of rows is unchanged. *)
Lemma setitem_spec (df : frame) (c : string) (dt : dtype) (cells : list cell) :
  length cells = len df ->
  exists d,
    setitem df c dt cells = inr d /\
    len d = len df /\
    get d c = Some (Series dt cells) /\
    (forall c', c' <> c -> get d c' = get df c') /\
    (forall c', In c' (columns d) <-> c' = c \/ In c' (columns df)).
Proof.
  intro Hlen. unfold setitem. rewrite Hlen, Nat.eqb_refl.
  unfold len in Hlen.
  destruct (index_of c (columns df)) as [j |] eqn:Ej.
  - destruct (index_of_lt _ _ _ Ej) as [Hj Hcj].
    assert (Hcols : map fst (replace_at j (c, dt) (header df)) = columns df)
      by (apply columns_replace_at; exact Hcj).
    unfold columns in Hj. rewrite length_map in Hj.
    eexists. split; [reflexivity |].
    split; [unfold len; cbn [body]; now apply zip_with_length_l |].
    split; [| split].
    + unfold get, columns. cbn [header body]. rewrite Hcols, Ej. f_equal.
      f_equal.
      * rewrite nth_replace_at_same by exact Hj. reflexivity.
      * unfold cells_at. cbn [body]. apply map_zip_with_r; [exact Hlen |].
        intros row x. apply nth_replace_at_same. now rewrite length_pad.
    + intros c' Hc'. unfold get, columns. cbn [header body]. rewrite Hcols.
      fold (columns df).
      destruct (index_of c' (columns df)) as [j' |] eqn:Ej'; [| reflexivity].
      destruct (index_of_lt _ _ _ Ej') as [Hj' Hcj'].
      assert (Hne : j' <> j) by (intros ->; congruence).
      unfold columns in Hj'. rewrite length_map in Hj'.
      f_equal. f_equal.
      * now rewrite nth_replace_at_other.
      * unfold cells_at. cbn [body]. apply map_zip_with_l; [exact Hlen |].
        intros row x. rewrite nth_replace_at_other by exact Hne.
        now apply nth_pad.
    + intro c'. unfold columns at 1. cbn [header]. rewrite Hcols. split; [auto |].
      intros [-> | H]; [| exact H]. eapply index_of_Some_In. exact Ej.
  - eexists. split; [reflexivity |].
    split; [unfold len; cbn [body]; now apply zip_with_length_l |].
    assert (Hn : length (columns df) = length (header df))
      by (unfold columns; apply length_map).
    split; [| split].
    + unfold get, columns. cbn [header body]. rewrite map_app. cbn [map fst].
      fold (columns df). rewrite (index_of_app_new _ _ Ej), Hn. f_equal. f_equal.
      * rewrite app_nth2, Nat.sub_diag by lia. reflexivity.
      * unfold cells_at. cbn [body]. apply map_zip_with_r; [exact Hlen |].
        intros row x. rewrite app_nth2; rewrite length_pad; [| lia].
        now rewrite Nat.sub_diag.
    + intros c' Hc'. unfold get, columns. cbn [header body]. rewrite map_app.
      cbn [map fst]. fold (columns df). rewrite (index_of_app_other _ _ _ Hc').
      destruct (index_of c' (columns df)) as [j' |] eqn:Ej'; [| reflexivity].
      destruct (index_of_lt _ _ _ Ej') as [Hj' _]. rewrite Hn in Hj'.
      f_equal. f_equal.
      * now rewrite app_nth1.
      * unfold cells_at. cbn [body]. apply map_zip_with_l; [exact Hlen |].
        intros row x. rewrite app_nth1 by now rewrite length_pad.
        now apply nth_pad.
    + intro c'. unfold columns at 1. cbn [header]. rewrite map_app, in_app_iff.
      cbn [map fst In]. fold (columns df). intuition congruence.
Qed.

Lemma map_fst_combine_seq {A} (l : list A) (start : nat) :
  map fst (combine (seq start (length l)) l) = seq start (length l).
Proof.
  revert start. induction l as [| x l IH]; intro start; simpl; [reflexivity |].
  now rewrite IH.
Qed.

Lemma In_combine_seq {A} (l : list A) (start i : nat) (x : A) :
  In (i, x) (combine (seq start (length l)) l) <->
  (start <= i)%nat /\ nth_error l (i - start) = Some x.
Proof.
  revert start. induction l as [| y l IH]; intro start; simpl.
  - split; [intros [] |]. intros [_ H]. destruct (i - start)%nat; discriminate.
  - rewrite IH. split.
    + intros [E | [Hle Hn]].
      * injection E as <- <-. split; [lia |]. now rewrite Nat.sub_diag.
      * split; [lia |]. replace (i - start)%nat with (S (i - S start)) by lia.
        exact Hn.
    + intros [Hle Hn]. destruct (Nat.eq_dec i start) as [-> | Hne].
      * left. rewrite Nat.sub_diag in Hn. simpl in Hn. congruence.
      * right. split; [lia |].
        replace (i - start)%nat with (S (i - S start)) in Hn by lia. exact Hn.
Qed.

Lemma enumerate_In {A} (l : list A) (i : nat) (x : A) :
  In (i, x) (enumerate l) <-> nth_error l i = Some x.
Proof.
  unfold enumerate. rewrite In_combine_seq, Nat.sub_0_r.
  split; [tauto | intro; split; [lia | assumption]].
Qed.

Lemma enumerate_NoDup {A} (l : list A) : NoDup (map fst (enumerate l)).
Proof. unfold enumerate. rewrite map_fst_combine_seq. apply seq_NoDup. Qed.

Lemma NoDupA_filter (p : Q -> bool) (l : list Q) :
  NoDupA Qeq l -> NoDupA Qeq (filter p l).
Proof.
  induction 1 as [| x l Hx _ IH]; simpl; [constructor |].
  destruct (p x); [| exact IH]. constructor; [| exact IH].
  intro Hin. apply Hx. apply InA_alt in Hin as (y & Exy & Hy).
  apply filter_In in Hy as [Hy _]. apply InA_alt. eauto.
Qed.

(** [pd.unique] lists no value twice. *)
Lemma pd_unique_NoDupA (l : list Q) : NoDupA Qeq (pd_unique l).
Proof.
  induction l as [| x l IH]; simpl; constructor.
  - intro Hin. apply InA_alt in Hin as (y & Exy & Hy).
    apply filter_In in Hy as [_ Hy]. apply negb_true_iff in Hy.
    assert (Ht : Qeq_bool y x = true) by (apply Qeq_bool_iff; now symmetry).
    congruence.
  - now apply NoDupA_filter.
Qed.

(** [pd.unique] lists every value. *)
Lemma pd_unique_covers (l : list Q) (x : Q) :
  In x l -> exists y, In y (pd_unique l) /\ x == y.
Proof.
  induction l as [| a l IH]; simpl; [intros [] |].
  intros [-> | Hx].
  - exists x. split; [now left | reflexivity].
  - destruct (IH Hx) as (y & Hy & Exy).
    destruct (Qeq_bool y a) eqn:E.
    + exists a. split; [now left |]. apply Qeq_bool_iff in E. now rewrite Exy.
    + exists y. split; [| exact Exy]. right. apply filter_In.
      split; [exact Hy | now rewrite E].
Qed.

Lemma pd_unique_In (l : list Q) (x : Q) : In x (pd_unique l) -> In x l.
Proof.
  induction l as [| a l IH]; simpl; [auto |].
  intros [-> | Hx]; [now left |]. right. apply IH.
  apply filter_In in Hx. tauto.
Qed.

Lemma NoDupA_nth_error (l : list Q) :
  NoDupA Qeq l ->
  forall i j a b, nth_error l i = Some a -> nth_error l j = Some b -> a == b -> i = j.
Proof.
  induction 1 as [| x l Hx _ IH]; intros [| i] [| j] a b Ha Hb E; simpl in *;
    try discriminate.
  - reflexivity.
  - exfalso. injection Ha as <-. apply Hx. apply InA_alt. exists b.
    split; [exact E | eapply nth_error_In; exact Hb].
  - exfalso. injection Hb as <-. apply Hx. apply InA_alt. exists a.
    split; [now symmetry | eapply nth_error_In; exact Ha].
  - f_equal. eapply IH; eassumption.
Qed.

Lemma present_In (cells : list cell) (v : Q) : In (Some v) cells <-> In v (present cells).
Proof.
  induction cells as [| [x |] cells IH]; simpl; [reflexivity | |].
  - rewrite <- IH. split; intros [H | H]; auto; left; congruence.
  - rewrite <- IH. split; [intros [H | H]; [discriminate | exact H] | auto].
Qed.

(** The loop of lines 99-100: every pass adds (or overwrites) one column
    and leaves the others, [educ_cat] among them, as they are. *)
Lemma educ_loop_spec (cats : list (nat * Q)) (df : frame) (s : series) :
  get df "educ_cat" = Some s ->
  NoDup (map fst cats) ->
  exists d,
    educ_loop cats df = inr d /\
    len d = len df /\
    (forall c, (forall i cat, In (i, cat) cats -> c <> "educ_" ++ string_of_nat i) ->
       get d c = get df c) /\
    (forall i cat, In (i, cat) cats ->
       get d ("educ_" ++ string_of_nat i) = Some (Series int64 (eq_astype_int s cat))) /\
    (forall c, In c (columns d) <->
       In c (columns df) \/
       exists i cat, In (i, cat) cats /\ c = "educ_" ++ string_of_nat i).
Proof.
  revert df. induction cats as [| [i cat] cats IH]; intros df Hg Hnd.
  - exists df. simpl. repeat split; auto.
    + intros _ _ [].
    + intros [H | (i & cat & [] & _)]. exact H.
  - simpl in Hnd. inversion Hnd as [| ? ? Hi Hnd']; subst.
    destruct (setitem_spec df ("educ_" ++ string_of_nat i) int64 (eq_astype_int s cat))
      as (d1 & E1 & Hl1 & Hg1 & Ho1 & Hc1).
    { unfold eq_astype_int. rewrite length_map. eapply get_length. exact Hg. }
    assert (Hg' : get d1 "educ_cat" = Some s).
    { rewrite Ho1; [exact Hg |]. intro E. symmetry in E.
      exact (educ_name_not_cat i E). }
    destruct (IH d1 Hg' Hnd') as (d & Ed & Hl & Ho & Hn & Hc).
    assert (Hfresh : forall j cat', In (j, cat') cats ->
              "educ_" ++ string_of_nat i <> "educ_" ++ string_of_nat j).
    { intros j cat' Hin E. apply educ_name_inj in E. subst j.
      apply Hi. apply in_map_iff. exists (i, cat'). auto. }
    exists d. cbn [educ_loop]. rewrite Hg, E1.
    split; [exact Ed |]. split; [congruence |]. split; [| split].
    + intros c Hcne. rewrite Ho.
      * apply Ho1. apply (Hcne i cat). now left.
      * intros j cat' Hin. apply (Hcne j cat'). now right.
    + intros j cat' [E | Hin].
      * injection E as <- <-. rewrite Ho; [exact Hg1 | exact Hfresh].
      * now apply Hn.
    + intro c. rewrite Hc, Hc1. split.
      * intros [[-> | H] | (j & cat' & Hin & ->)].
        -- right. exists i, cat. split; [now left | reflexivity].
        -- now left.
        -- right. exists j, cat'. split; [now right | reflexivity].
      * intros [H | (j & cat' & [E | Hin] & ->)].
        -- left. now right.
        -- injection E as <- <-. left. now left.
        -- right. eauto.
Qed.

(** X13.  Lines 98-100 on a frame with distinct column labels that has
    the column [educ_cat]: the loop cannot fail; it adds one [int64] column [educ_i] per distinct
    value present in [educ_cat], numbered in the order of first
    appearance, and changes no other column and no row count.  A row
    whose [educ_cat] has a value gets 1 in exactly one of these columns,
    the one of its value, and 0 in the others; a row whose [educ_cat] is
    missing gets 0 in all of them.  No dummy has a missing value. *)
Theorem educ_dummies_one_hot (df : frame) (s : series) :
  NoDup (columns df) ->
  get df "educ_cat" = Some s ->
  let cats := pd_unique (present (s_cells s)) in
  exists d,
    educ_dummies df = inr d /\
    len d = len df /\
    (forall c, In c (columns d) <->
       In c (columns df) \/
       exists i, (i < length cats)%nat /\ c = "educ_" ++ string_of_nat i) /\
    (forall c, (forall i, (i < length cats)%nat -> c <> "educ_" ++ string_of_nat i) ->
       get d c = get df c) /\
    (forall i, (i < length cats)%nat ->
       exists si, get d ("educ_" ++ string_of_nat i) = Some si /\
                  s_dtype si = int64 /\ isna_any si = false) /\
    (forall r v, nth_error (s_cells s) r = Some (Some v) ->
       exists i cat,
         nth_error cats i = Some cat /\ v == cat /\
         forall j, (j < length cats)%nat ->
           exists sj, get d ("educ_" ++ string_of_nat j) = Some sj /\
             nth_error (s_cells sj) r = Some (Some (if (j =? i)%nat then 1 else 0))) /\
    (forall r, nth_error (s_cells s) r = Some None ->
       forall j, (j < length cats)%nat ->
         exists sj, get d ("educ_" ++ string_of_nat j) = Some sj /\
                    nth_error (s_cells sj) r = Some (Some 0)).
Proof.
  intros _ Hg cats.
  destruct (educ_loop_spec (enumerate cats) df s Hg (enumerate_NoDup cats))
    as (d & Ed & Hl & Ho & Hn & Hc).
  assert (Hcat : forall i, (i < length cats)%nat ->
            exists cat, nth_error cats i = Some cat /\
              get d ("educ_" ++ string_of_nat i)
              = Some (Series int64 (eq_astype_int s cat))).
  { intros i Hi. destruct (nth_error cats i) as [cat |] eqn:E.
    - exists cat. split; [reflexivity |]. apply Hn. now apply enumerate_In.
    - apply nth_error_None in E. lia. }
  exists d. split.
  { unfold educ_dummies.
    assert (Hm : mem "educ_cat" (columns df) = true).
    { apply mem_In. apply get_Some_iff. eauto. }
    rewrite Hm, Hg. exact Ed. }
  split; [exact Hl |]. split; [| split; [| split; [| split]]].
  - intro c. rewrite Hc. split; (intros [H | H]; [now left | right]).
    + destruct H as (i & cat & Hin & ->). apply enumerate_In in Hin.
      exists i. split; [| reflexivity]. apply nth_error_Some. congruence.
    + destruct H as (i & Hi & ->). destruct (Hcat i Hi) as (cat & Hcati & _).
      exists i, cat. split; [now apply enumerate_In | reflexivity].
  - intros c Hne. apply Ho. intros i cat Hin. apply Hne.
    apply enumerate_In in Hin. apply nth_error_Some. congruence.
  - intros i Hi. destruct (Hcat i Hi) as (cat & _ & Hgi).
    eexists. split; [exact Hgi |]. split; [reflexivity |].
    unfold isna_any, eq_astype_int. cbn [s_cells].
    apply not_true_iff_false. rewrite existsb_exists. intros (x & Hx & Hna).
    apply in_map_iff in Hx as ([v |] & <- & _); [destruct (Qeq_bool v cat) |];
      discriminate Hna.
  - intros r v Hr.
    assert (Hv : In v (present (s_cells s))).
    { apply present_In. eapply nth_error_In. exact Hr. }
    destruct (pd_unique_covers _ _ Hv) as (y & Hy & Evy).
    apply In_nth_error in Hy as (i & Hi).
    exists i, y. split; [exact Hi |]. split; [exact Evy |].
    intros j Hj. destruct (Hcat j Hj) as (cat & Hcatj & Hgj).
    eexists. split; [exact Hgj |]. cbn [s_cells]. unfold eq_astype_int.
    rewrite nth_error_map. unfold cell in *. rewrite Hr. cbn [option_map]. f_equal.
    destruct (Nat.eqb_spec j i) as [-> | Hne].
    + assert (cat = y) by (unfold cats in *; congruence). subst cat.
      apply Qeq_bool_iff in Evy. now rewrite Evy.
    + destruct (Qeq_bool v cat) eqn:E; [| reflexivity].
      exfalso. apply Hne. apply Qeq_bool_iff in E.
      apply (NoDupA_nth_error cats (pd_unique_NoDupA _) j i cat y Hcatj Hi).
      now rewrite <- E.
  - intros r Hr j Hj. destruct (Hcat j Hj) as (cat & _ & Hgj).
    eexists. split; [exact Hgj |]. cbn [s_cells]. unfold eq_astype_int.
    rewrite nth_error_map. unfold cell in *. now rewrite Hr.
Qed.

(** ** Analysis period and treatment (lines 51-68) *)

Lemma nth_error_zip_with {A B C} (f : A -> B -> C) (a : list A) (b : list B) (r : nat) :
  nth_error (zip_with f a b) r
  = match nth_error a r, nth_error b r with
    | Some x, Some y => Some (f x y)
    | _, _ => None
    end.
Proof.
  revert b r. induction a as [| x a IH]; intros [| y b] [| r]; simpl; auto.
  - destruct (nth_error a r); reflexivity.
Qed.

Lemma filter_map_comm {A B} (f : A -> B) (p : B -> bool) (l : list A) :
  filter p (map f l) = map f (filter (fun x => p (f x)) l).
Proof.
  induction l as [| x l IH]; simpl; [reflexivity |].
  destruct (p (f x)); simpl; now rewrite IH.
Qed.

Lemma get_cells (df : frame) (c : string) (s : series) :
  get df c = Some s ->
  exists j, index_of c (columns df) = Some j /\ s_cells s = cells_at df j.
Proof.
  unfold get. destruct (index_of c (columns df)) as [j |]; [| discriminate].
  intro H. injection H as <-. eauto.
Qed.

(** Dropping on [post] and [agri_post] removes nothing that dropping on
    [agri] does not, once [post] has no missing value and [agri_post] is
    missing exactly where [agri] is. *)
Lemma clean_sample_redundant (d : frame) (sa sp sap : series) :
  get d "agri" = Some sa -> get d "post" = Some sp -> get d "agri_post" = Some sap ->
  isna_any sp = false ->
  (forall r a, nth_error (s_cells sa) r = Some a ->
     exists x, nth_error (s_cells sap) r = Some x /\ isna x = isna a) ->
  clean_sample d = dropna d ["ln_wage"; "agri"; "age"; "female"].
Proof.
  intros Ha Hp Hap Hna Hrel.
  apply get_cells in Ha as (ja & Eja & Hca).
  apply get_cells in Hp as (jp & Ejp & Hcp).
  apply get_cells in Hap as (jap & Ejap & Hcap).
  assert (Hpost : forall row, In row (body d) -> isna (nth jp row None) = false).
  { intros row Hrow. apply not_true_iff_false. intro Ht.
    unfold isna_any in Hna. rewrite Hcp in Hna.
    assert (E : existsb isna (cells_at d jp) = true).
    { apply existsb_exists. exists (nth jp row None). split; [| exact Ht].
      unfold cells_at. apply in_map_iff. eauto. }
    congruence. }
  assert (Hsame : forall row, In row (body d) ->
            isna (nth jap row None) = isna (nth ja row None)).
  { intros row Hrow. apply In_nth_error in Hrow as (r & Hr).
    destruct (Hrel r (nth ja row None)) as (x & Hx & E).
    { rewrite Hca. unfold cells_at. rewrite nth_error_map. unfold cell in *.
      now rewrite Hr. }
    rewrite Hcap in Hx. unfold cells_at in Hx. rewrite nth_error_map in Hx.
    unfold cell in *. rewrite Hr in Hx. simpl in Hx. congruence. }
  unfold clean_sample, dropna, required. cbn [traverse].
  rewrite Eja, Ejp, Ejap.
  destruct (index_of "ln_wage" (columns d)) as [jl |]; [| reflexivity].
  destruct (index_of "age" (columns d)) as [jg |]; [| reflexivity].
  destruct (index_of "female" (columns d)) as [jf |]; [| reflexivity].
  f_equal. f_equal. apply filter_ext_in. intros row Hrow. cbn [forallb].
  pose proof (Hpost row Hrow) as H1. pose proof (Hsame row Hrow) as H2.
  unfold cell in *. rewrite H1, H2.
  destruct (isna (nth jl row None)), (isna (nth ja row None)),
    (isna (nth jg row None)), (isna (nth jf row None)); reflexivity.
Qed.

Lemma filter_period_spec (df : frame) (j : nat) :
  index_of "year" (columns df) = Some j ->
  exists d,
    filter_period df = inr d /\
    header d = header df /\
    body d = filter (fun row => in_period (nth j row None)) (body df) /\
    (len d <= len df)%nat.
Proof.
  intro E. unfold filter_period. rewrite E. eexists.
  split; [reflexivity |]. split; [reflexivity |]. split; [reflexivity |].
  unfold len. cbn [body]. apply filter_length_le.
Qed.

Lemma in_period_spec (x : cell) :
  in_period x = true <-> exists y, x = Some y /\ 2010 <= y /\ y <= 2019.
Proof.
  destruct x as [y |]; simpl.
  - rewrite andb_true_iff, !Qle_bool_iff. split.
    + intros [H1 H2]. eauto.
    + intros (y' & E & H1 & H2). injection E as <-. auto.
  - split; [discriminate | intros (y & E & _); discriminate].
Qed.

Lemma get_same_header (df d : frame) (c : string) (s : series) :
  header d = header df -> get d c = Some s ->
  exists s0, get df c = Some s0 /\ s_dtype s0 = s_dtype s.
Proof.
  intros Hh. unfold get, columns. rewrite Hh.
  destruct (index_of c (map fst (header df))) as [j |]; [| discriminate].
  intro H. injection H as <-. eexists. split; reflexivity.
Qed.

Lemma agri_indicator_spec (df : frame) :
  In "agri" (columns df) \/ In "industry" (columns df) ->
  exists d sa,
    agri_indicator df = inr d /\
    len d = len df /\
    get d "agri" = Some sa /\
    get d "year" = get df "year" /\
    (forall s0, get df "agri" = Some s0 -> s0 = sa) /\
    (~ In "agri" (columns df) -> s_dtype sa = int64).
Proof.
  intro H. unfold agri_indicator.
  destruct (mem "agri" (columns df)) eqn:Ea.
  - apply mem_In in Ea. pose proof Ea as Ea'.
    apply get_Some_iff in Ea as (sa & Hsa).
    exists df, sa. repeat split; auto.
    + intros s0 Hs0. congruence.
    + intro Hn. contradiction.
  - assert (Hn : ~ In "agri" (columns df)).
    { intro Hin. apply mem_In in Hin. congruence. }
    destruct H as [H | H]; [contradiction |].
    pose proof H as Hm. apply mem_In in Hm. rewrite Hm.
    apply get_Some_iff in H as (s & Hs). rewrite Hs.
    destruct (setitem_spec df "agri" int64 (eq_astype_int s 8))
      as (d & Ed & Hl & Hg & Ho & _).
    { unfold eq_astype_int. rewrite length_map. eapply get_length. exact Hs. }
    exists d, (Series int64 (eq_astype_int s 8)).
    split; [exact Ed |]. split; [exact Hl |]. split; [exact Hg |].
    split; [apply Ho; discriminate |]. split; [| reflexivity].
    intros s0 Hs0. exfalso. apply Hn. apply get_Some_iff. eauto.
Qed.

Lemma treatment_columns_spec (df : frame) (sy sa : series) :
  get df "year" = Some sy -> get df "agri" = Some sa ->
  (s_dtype sa = category -> treatment_columns df = inl TypeError) /\
  (s_dtype sa <> category ->
   exists d dt,
     treatment_columns df = inr d /\
     len d = len df /\
     get d "year" = Some sy /\
     get d "agri" = Some sa /\
     get d "post" = Some (Series int64 (ge_astype_int sy 2014)) /\
     get d "agri_post"
     = Some (Series dt (mul_cells (s_cells sa) (ge_astype_int sy 2014))) /\
     (forall c, c <> "post" -> c <> "agri_post" -> get d c = get df c)).
Proof.
  intros Hy Ha. unfold treatment_columns. rewrite Hy.
  destruct (setitem_spec df "post" int64 (ge_astype_int sy 2014))
    as (d1 & E1 & Hl1 & Hg1 & Ho1 & _).
  { unfold ge_astype_int. rewrite length_map. eapply get_length. exact Hy. }
  rewrite E1, Hg1. rewrite (Ho1 "agri") by discriminate. rewrite Ha. cbn [s_cells].
  split.
  - intros ->. reflexivity.
  - intro Hcat.
    destruct (mul_int64_dtype (s_dtype sa)) as [e | dt] eqn:Edt.
    { destruct (s_dtype sa); try discriminate Edt. congruence. }
    destruct (setitem_spec d1 "agri_post" dt
                (mul_cells (s_cells sa) (ge_astype_int sy 2014)))
      as (d & Ed & Hl & Hg & Ho & _).
    { unfold mul_cells, ge_astype_int.
      rewrite zip_with_length, length_map.
      pose proof (get_length _ _ _ Ha) as Hla.
      pose proof (get_length _ _ _ Hy) as Hly. unfold cell in *. lia. }
    exists d, dt. split; [exact Ed |]. split; [congruence |].
    split; [rewrite Ho, Ho1 by discriminate; exact Hy |].
    split; [rewrite Ho, Ho1 by discriminate; exact Ha |].
    split; [rewrite Ho by discriminate; exact Hg1 |].
    split; [exact Hg |].
    intros c Hc1 Hc2. rewrite Ho by exact Hc2. now apply Ho1.
Qed.

(** X14.  Lines 51-68, on a frame with distinct column labels.  Without
    a column [year] the stage ends with [KeyError].  With a numeric
    [year]: with neither [agri] nor [industry] it ends with the script's
    [ValueError]; with a categorical [agri], with pandas' [TypeError] at
    line 68; with a numeric [agri], or without [agri] and with a numeric
    [industry], it returns a frame whose years are, in order, the years
    of the frame that are present and between 2010 and 2019 (one row
    each); in each of its rows [post]
    is 1 from 2014 on and 0 before and is never missing, and [agri_post]
    is [agri * post], missing exactly where [agri] is.  So on every
    frame with these three columns, listing [post] and [agri_post] among
    the key variables of line 103 removes no row that [agri] does not
    remove. *)
Theorem prepare_treatment_spec (df : frame) :
  NoDup (columns df) ->
  let numeric c :=
    forall s, get df c = Some s -> is_numeric_dtype (s_dtype s) = true in
  (~ In "year" (columns df) -> prepare_treatment df = inl KeyError) /\
  (In "year" (columns df) -> numeric "year" ->
   ~ In "agri" (columns df) -> ~ In "industry" (columns df) ->
   prepare_treatment df = inl ValueError) /\
  (In "year" (columns df) -> numeric "year" ->
   forall s0, get df "agri" = Some s0 -> s_dtype s0 = category ->
   prepare_treatment df = inl TypeError) /\
  (In "year" (columns df) -> numeric "year" ->
   In "agri" (columns df) \/ In "industry" (columns df) ->
   numeric "agri" ->
   (~ In "agri" (columns df) -> numeric "industry") ->
   exists d sy sa sp sap,
     prepare_treatment df = inr d /\
     (len d <= len df)%nat /\
     get d "year" = Some sy /\ get d "agri" = Some sa /\
     get d "post" = Some sp /\ get d "agri_post" = Some sap /\
     (forall sy0, get df "year" = Some sy0 ->
        s_cells sy = filter in_period (s_cells sy0)) /\
     s_dtype sp = int64 /\ isna_any sp = false /\
     (forall r, (r < len d)%nat ->
        exists y a,
          nth_error (s_cells sy) r = Some (Some y) /\ 2010 <= y /\ y <= 2019 /\
          nth_error (s_cells sa) r = Some a /\
          let p := if Qle_bool 2014 y then 1 else 0 in
          nth_error (s_cells sp) r = Some (Some p) /\
          nth_error (s_cells sap) r = Some (option_map (fun v => v * p) a)) /\
     (forall d', get d' "agri" = Some sa -> get d' "post" = Some sp ->
        get d' "agri_post" = Some sap ->
        clean_sample d' = dropna d' ["ln_wage"; "agri"; "age"; "female"])).
Proof.
  intros _ numeric. unfold prepare_treatment.
  split.
  { intro Hn. unfold filter_period.
    destruct (index_of "year" (columns df)) as [j |] eqn:E; [| reflexivity].
    exfalso. apply Hn. eapply index_of_Some_In. exact E. }
  assert (Hstart : In "year" (columns df) ->
            exists d1 sy,
              filter_period df = inr d1 /\ header d1 = header df /\
              (len d1 <= len df)%nat /\ get d1 "year" = Some sy /\
              (forall x, In x (s_cells sy) -> in_period x = true) /\
              (forall sy0, get df "year" = Some sy0 ->
                 s_cells sy = filter in_period (s_cells sy0))).
  { intro Hy. destruct (index_of_In _ _ Hy) as (j & Ej).
    destruct (filter_period_spec df j Ej) as (d1 & E1 & Hh & Hb & Hle).
    exists d1. eexists. split; [exact E1 |]. split; [exact Hh |].
    split; [exact Hle |]. split.
    - unfold get, columns. rewrite Hh. fold (columns df). rewrite Ej. reflexivity.
    - cbn [s_cells]. unfold cells_at. rewrite Hb. split.
      + intros x Hx. apply in_map_iff in Hx as (row & <- & Hrow).
        apply filter_In in Hrow. tauto.
      + intros sy0 Hsy0. unfold get in Hsy0. rewrite Ej in Hsy0.
        injection Hsy0 as <-. cbn [s_cells]. unfold cells_at.
        symmetry. apply filter_map_comm. }
  assert (Hcols : forall d1 c, header d1 = header df ->
            (In c (columns d1) <-> In c (columns df))).
  { intros d1 c Hh. unfold columns. now rewrite Hh. }
  split; [| split].
  - intros Hy _ Hna Hni.
    destruct (Hstart Hy) as (d1 & sy & E1 & Hh & _). rewrite E1.
    unfold agri_indicator.
    destruct (mem "agri" (columns d1)) eqn:Ea.
    { apply mem_In, (Hcols d1 _ Hh) in Ea. contradiction. }
    destruct (mem "industry" (columns d1)) eqn:Ei; [| reflexivity].
    apply mem_In, (Hcols d1 _ Hh) in Ei. contradiction.
  - intros Hy _ s0 Hs0 Hcat.
    destruct (Hstart Hy) as (d1 & sy & E1 & Hh & _ & Hgy & _). rewrite E1.
    assert (Hin : In "agri" (columns d1)).
    { apply (Hcols d1 _ Hh). apply get_Some_iff. eauto. }
    destruct (agri_indicator_spec d1 (or_introl Hin))
      as (d2 & sa & E2 & _ & Hga & Hgy2 & Hsame & _).
    rewrite E2. rewrite <- Hgy2 in Hgy.
    apply get_Some_iff in Hin as (s1 & Hs1).
    destruct (get_same_header _ _ _ _ Hh Hs1) as (s0' & Hs0' & Hdt).
    assert (s0' = s0) by congruence. subst s0'.
    rewrite (Hsame s1 Hs1) in Hdt.
    apply (proj1 (treatment_columns_spec d2 sy sa Hgy Hga)). congruence.
  - intros Hy _ Hai Hnum0 _.
    assert (Hnum : forall s0, get df "agri" = Some s0 -> s_dtype s0 <> category).
    { intros s0 Hs0 E. apply Hnum0 in Hs0. rewrite E in Hs0. discriminate Hs0. }
    destruct (Hstart Hy) as (d1 & sy & E1 & Hh & Hle & Hgy & Hper & Hfil).
    rewrite E1.
    assert (Hai1 : In "agri" (columns d1) \/ In "industry" (columns d1)).
    { destruct Hai as [H | H]; [left | right]; now apply (Hcols d1 _ Hh). }
    destruct (agri_indicator_spec d1 Hai1)
      as (d2 & sa & E2 & Hl2 & Hga & Hgy2 & Hsame & Hnew).
    rewrite E2. rewrite <- Hgy2 in Hgy.
    assert (Hcat : s_dtype sa <> category).
    { destruct (mem "agri" (columns d1)) eqn:Ea.
      - apply mem_In, get_Some_iff in Ea as (s1 & Hs1).
        destruct (get_same_header _ _ _ _ Hh Hs1) as (s0 & Hs0 & Hdt).
        rewrite <- (Hsame s1 Hs1), <- Hdt. now apply Hnum.
      - rewrite Hnew; [discriminate |]. intro Hin. apply mem_In in Hin. congruence. }
    destruct (proj2 (treatment_columns_spec d2 sy sa Hgy Hga) Hcat)
      as (d & dt & Ed & Hl & Hy' & Ha' & Hp' & Hap' & _).
    pose proof (get_length _ _ _ Hy') as Hly.
    pose proof (get_length _ _ _ Ha') as Hla.
    assert (Hrow : forall r, (r < len d)%nat ->
              exists y a,
                nth_error (s_cells sy) r = Some (Some y) /\ 2010 <= y /\ y <= 2019 /\
                nth_error (s_cells sa) r = Some a).
    { intros r Hr.
      destruct (nth_error (s_cells sy) r) as [x |] eqn:Ex;
        [| apply nth_error_None in Ex; lia].
      destruct (nth_error (s_cells sa) r) as [a |] eqn:Ea;
        [| apply nth_error_None in Ea; lia].
      destruct (proj1 (in_period_spec x) (Hper x (nth_error_In _ _ Ex)))
        as (y & -> & H1 & H2).
      exists y, a. auto. }
    exists d, sy, sa. do 2 eexists.
    split; [exact Ed |]. split; [lia |].
    split; [exact Hy' |]. split; [exact Ha' |].
    split; [exact Hp' |]. split; [exact Hap' |].
    split; [exact Hfil |]. split; [reflexivity |].
    assert (Hnap : isna_any (Series int64 (ge_astype_int sy 2014)) = false).
    { unfold isna_any, ge_astype_int. cbn [s_cells].
      apply not_true_iff_false. rewrite existsb_exists. intros (x & Hx & Hna).
      apply in_map_iff in Hx as ([v |] & <- & _); [destruct (Qle_bool 2014 v) |];
        discriminate Hna. }
    split; [exact Hnap |].
    assert (Hcells : forall r y a,
              nth_error (s_cells sy) r = Some (Some y) ->
              nth_error (s_cells sa) r = Some a ->
              let p := if Qle_bool 2014 y then 1 else 0 in
              nth_error (ge_astype_int sy 2014) r = Some (Some p) /\
              nth_error (mul_cells (s_cells sa) (ge_astype_int sy 2014)) r
              = Some (option_map (fun v => v * p) a)).
    { intros r y a Hy0 Ha0. cbv zeta.
      assert (Hp0 : nth_error (ge_astype_int sy 2014) r
                    = Some (Some (if Qle_bool 2014 y then 1 else 0))).
      { unfold ge_astype_int. rewrite nth_error_map. unfold cell in *.
        rewrite Hy0. simpl. now destruct (Qle_bool 2014 y). }
      split; [exact Hp0 |].
      unfold mul_cells. rewrite nth_error_zip_with. unfold cell in *.
      rewrite Ha0, Hp0. now destruct a. }
    split.
    + intros r Hr. destruct (Hrow r Hr) as (y & a & Hy0 & H1 & H2 & Ha0).
      exists y, a. cbn [s_cells].
      destruct (Hcells r y a Hy0 Ha0) as [Hp0 Hap0].
      repeat split; assumption.
    + intros d' Ha2 Hp2 Hap2.
      apply (clean_sample_redundant d' sa _ _ Ha2 Hp2 Hap2 Hnap).
      intros r a Ha0. cbn [s_cells].
      assert (Hr : (r < len d)%nat).
      { rewrite <- Hla. apply nth_error_Some. congruence. }
      destruct (Hrow r Hr) as (y & a' & Hy0 & _ & _ & Ha1).
      assert (a' = a) by congruence. subst a'.
      destruct (Hcells r y a Hy0 Ha0) as [_ Hap0].
      eexists. split; [exact Hap0 |]. now destruct a.
Qed.

(** ** The further properties at concrete frames *)

(** The X-Learner runs to its end on the three workers of [Toy.df3]. *)
Lemma toy_x_learner_df3 :
  exists st, returns (x_learner Toy.library 0%nat Toy.df3) st.
Proof.
  destruct (outcome (x_learner Toy.library 0%nat Toy.df3)) as [e | st] eqn:E.
  - vm_compute in E. discriminate E.
  - exists st. exact E.
Qed.

Lemma arms_disjoint_witness :
  exists st,
    returns (x_learner Toy.library 0%nat Toy.df3) st /\
    (count_true (mask_0 st) + count_true (mask_1 st) <= length (T_cf st))%nat /\
    length (tau_hat st) = length (T_cf st).
Proof.
  destruct toy_x_learner_df3 as (st & E).
  exists st. split; [exact E |].
  pose proof (arms_disjoint Toy.library 0%nat Toy.df3 st E) as H. tauto.
Defined.

Lemma small_frame_fully_sampled_witness :
  exists st,
    returns (x_learner Toy.library 0%nat Toy.df3) st /\
    (len Toy.df3 <= 30000)%nat /\
    Permutation (sample_idx st) (seq 0 (len Toy.df3)) /\
    length (tau_hat st) = len Toy.df3.
Proof.
  assert (Hsmall : (len Toy.df3 <= 30000)%nat)
    by (apply Nat.leb_le; vm_compute; reflexivity).
  destruct toy_x_learner_df3 as (st & E).
  exists st. split; [exact E |]. split; [exact Hsmall |].
  pose proof (small_frame_fully_sampled Toy.library 0%nat Toy.df3 st
                toy_draws_without_replacement E Hsmall) as H.
  tauto.
Defined.

Lemma estimates_follow_sample_idx_witness :
  exists st,
    returns (x_learner Toy.library 0%nat Toy.df3) st /\
    length (tau_hat st) = length (sample_idx st).
Proof.
  destruct toy_x_learner_df3 as (st & E).
  exists st. split; [exact E |].
  exact (proj1 (estimates_follow_sample_idx Toy.library 0%nat Toy.df3 st E)).
Defined.

Lemma reported_means_are_numbers_witness :
  exists st,
    returns (x_learner Toy.library 0%nat Toy.df3) st /\
    tau_hat st <> [] /\
    mean_tau (cf_results st) = Some (Qsum (tau_hat st) / Qlen (tau_hat st)).
Proof.
  destruct toy_x_learner_df3 as (st & E).
  exists st. split; [exact E |].
  pose proof (reported_means_are_numbers Toy.library 0%nat Toy.df3 st E) as H.
  tauto.
Defined.

Lemma double_selection_trace_witness :
  exists st,
    returns (double_selection Toy.library 0%nat Toy.df3) st /\
    trace (double_selection Toy.library 0%nat Toy.df3)
    = [Fit "scaler" (len Toy.df3);
       Fit "lasso_y" (length (Lasso.X_scaled st));
       Fit "lasso_d" (length (Lasso.X_scaled st));
       Fit "model" (len Toy.df3)].
Proof.
  destruct (outcome (double_selection Toy.library 0%nat Toy.df3)) as [e | st] eqn:E.
  - vm_compute in E. discriminate E.
  - exists st. split; [exact E |].
    exact (double_selection_trace Toy.library 0%nat Toy.df3 st E).
Defined.

Lemma x_learner_trace_witness :
  exists st,
    returns (x_learner Toy.library 0%nat Toy.df3) st /\
    trace (x_learner Toy.library 0%nat Toy.df3)
    = [Fit "rf_0" (count_true (mask_0 st));
       Fit "rf_1" (count_true (mask_1 st));
       Fit "tau_0_model" (count_true (mask_0 st));
       Fit "tau_1_model" (count_true (mask_1 st));
       Fit "ps_model" (length (sample_idx st))].
Proof.
  destruct toy_x_learner_df3 as (st & E).
  exists st. split; [exact E |].
  exact (x_learner_trace Toy.library 0%nat Toy.df3 st E).
Defined.

Lemma treatment_fit_failure_witness :
  double_selection Toy.library 0%nat Toy.df4
  = ([Fit "scaler" 4; Fit "lasso_y" 4; Fit "lasso_d" 4], inl ValueError).
Proof.
  etransitivity.
  - eapply (treatment_fit_failure Toy.library 0%nat Toy.df4); vm_compute; reflexivity.
  - reflexivity.
Defined.

Lemma reported_controls_witness :
  exists st,
    returns (double_selection Toy.library 0%nat Toy.df3) st /\
    NoDup (columns Toy.df3) /\
    NoDup (Lasso.selected_names st) /\
    n_obs (Lasso.report st) = len Toy.df3.
Proof.
  assert (Hnd : NoDup (columns Toy.df3)).
  { unfold columns. simpl.
    repeat (constructor; [simpl; intuition discriminate |]). constructor. }
  destruct (outcome (double_selection Toy.library 0%nat Toy.df3)) as [e | st] eqn:E.
  - vm_compute in E. discriminate E.
  - exists st. split; [exact E |]. split; [exact Hnd |].
    pose proof (reported_controls Toy.library 0%nat Toy.df3 st Hnd E) as H.
    cbv zeta in H. tauto.
Defined.

Lemma clean_sample_reaches_fits_witness :
  exists d,
    clean_sample Toy.raw5 = inr d /\
    len d = 3%nat /\
    (exists t o, double_selection Toy.library 0%nat d = (Fit "scaler" (len d) :: t, o)) /\
    exists n0 t o,
      steps_2_3 Toy.library 0%nat d
      = ((trace (double_selection Toy.library 0%nat d) ++ Fit "rf_0" n0 :: t)%list, o).
Proof.
  pose (d := Frame (header Toy.raw5)
               [Toy.row [10; 1; 1; 1; 30; 0; 2]%Z;
                Toy.row [ 9; 0; 1; 0; 50; 0; 2]%Z;
                Toy.row [11; 0; 0; 0; 35; 1; 3]%Z]).
  assert (Hd : clean_sample Toy.raw5 = inr d) by (vm_compute; reflexivity).
  exists d. split; [exact Hd |]. split; [reflexivity |].
  destruct (clean_sample_reaches_fits Toy.library 0%nat Toy.raw5 d Hd)
    as (H1 & _ & _ & H4).
  split; [exact H1 |].
  destruct (outcome (double_selection Toy.library 0%nat d)) as [e | st] eqn:E.
  - vm_compute in E. discriminate E.
  - destruct (H4 toy_draws_without_replacement st E) as (n0 & t & o & Hs & _).
    exists n0, t, o. exact Hs.
Defined.

Lemma educ_dummies_one_hot_witness :
  exists s d,
    NoDup (columns Toy.raw5) /\
    get Toy.raw5 "educ_cat" = Some s /\
    educ_dummies Toy.raw5 = inr d /\
    len d = len Toy.raw5.
Proof.
  assert (Hnd : NoDup (columns Toy.raw5)).
  { unfold columns. simpl.
    repeat (constructor; [simpl; intuition discriminate |]). constructor. }
  assert (Hg : get Toy.raw5 "educ_cat"
               = Some (Series float64 [Some 2; Some 1; Some 2; None; Some 3]))
    by (vm_compute; reflexivity).
  destruct (educ_dummies_one_hot Toy.raw5 _ Hnd Hg) as (d & Hd & Hl & _).
  eexists. exists d. split; [exact Hnd |]. split; [exact Hg |].
  split; [exact Hd | exact Hl].
Defined.

Lemma prepare_treatment_spec_witness :
  exists d sp sap,
    prepare_treatment Toy.rlms5 = inr d /\
    get d "post" = Some sp /\ get d "agri_post" = Some sap /\
    isna_any sp = false.
Proof.
  assert (Hnd : NoDup (columns Toy.rlms5)).
  { unfold columns. simpl.
    repeat (constructor; [simpl; intuition discriminate |]). constructor. }
  destruct (prepare_treatment_spec Toy.rlms5 Hnd) as (_ & _ & _ & H).
  destruct H as (d & sy & sa & sp & sap & Hd & _ & _ & _ & Hp & Hap & _ & _ & Hna & _).
  - simpl. auto.
  - intros s Hs. vm_compute in Hs. injection Hs as <-. reflexivity.
  - right. simpl. auto.
  - intros s Hs. vm_compute in Hs. discriminate Hs.
  - intros _ s Hs. vm_compute in Hs. injection Hs as <-. reflexivity.
  - exists d, sp, sap. auto.
Defined.
